(** * Odometry of the 2020-2021 bionic-beaver robot

    A shallow embedding of [src/subsystems/control/odometry.cpp]: the
    constructor, [calibrate], [start_odom] / [stop_odom], the getters, the
    deadband filter [m_filter_values] and the body of the perpetual loop of
    [m_update_func].

    Numbers.  Every [double] of the source is read as a real number
    ([R] of the Standard Library): [+ - * /] are the field operations,
    [std::fabs] is [Rabs], [sin] / [cos] / [M_PI] are [sin] / [cos] / [PI].
    Rounding, infinities and NaN are outside this model; every statement
    below is a statement about the arithmetic the source writes down.
    Where rounding decides, the loop body is taken a second time with
    IEEE 754 binary64 numbers ([Binary64]).

    Control.  One iteration of the [while(true)] loop is one atomic step
    ([m_update_iter]); the values the sensor object returns during that
    iteration are an input of the step ([h_Sensors]).  The tasks created by
    [start_odom] live in a task table next to the object ([world]); a
    [Tick] event lets one live task run one iteration.  Preemption inside an
    iteration is not modelled. *)

From Stdlib Require Import Reals ZArith Bool Floats Lra Lia List.
Import ListNotations.
Open Scope R_scope.

(** ** Data *)

(** [c_Robot_Starting_Pos_Side]: the three cases of the constructor's switch. *)
Inductive c_Robot_Starting_Pos_Side : Type :=
| RED
| BLUE
| SKILLS.

(** One starting position: the [.x], [.y], [.head] the constructor reads. *)
Module Coord.
Record t : Type := mk { x : R; y : R; head : R }.
End Coord.

(** [c_Robot_Starting_Positions]: one starting position per side. *)
Record c_Robot_Starting_Positions : Type := {
  m_live_start_red : Coord.t;
  m_live_start_blue : Coord.t;
  m_skills : Coord.t
}.

(** The two tracking wheels [m_update_func] asks for. *)
Inductive h_Sensors_Tracking_Wheel_IDs : Type :=
| RIGHT
| MIDDLE.

(** What the calls on [m_sensors_obj] return during one loop iteration. *)
Record h_Sensors : Type := {
  imu_get_rotation : R;
  imu_get_pitch : R;
  imu_get_roll : R;
  tracking_wheels_get : h_Sensors_Tracking_Wheel_IDs -> R;
  tracking_wheels_get_diameter : R;
  tracking_wheels_get_side_radius : R;
  tracking_wheels_get_middle_radius : R
}.

(** The local variables of [m_update_func]; they are declared outside the
    loop, so they keep their values from one iteration to the next. *)
Record m_update_locals : Type := {
  m_current_rotation : R;
  m_filtered_rotation : R;
  m_last_rotation : R;
  m_current_pitch : R;
  m_filtered_pitch : R;
  m_last_pitch : R;
  m_current_roll : R;
  m_filtered_roll : R;
  m_last_roll : R;
  m_len_right : R;
  m_len_middle : R;
  m_delta_right : R;
  m_delta_middle : R;
  m_last_right : R;
  m_last_middle : R;
  m_delta_theta : R;
  m_alpha : R;
  m_radius_right : R;
  m_radius_middle : R;
  m_chord_right : R;
  m_chord_middle : R;
  m_polar_offset : R
}.

(** Every local starts at [0.0]. *)
Definition m_update_locals_init : m_update_locals :=
  {| m_current_rotation := 0; m_filtered_rotation := 0; m_last_rotation := 0;
     m_current_pitch := 0; m_filtered_pitch := 0; m_last_pitch := 0;
     m_current_roll := 0; m_filtered_roll := 0; m_last_roll := 0;
     m_len_right := 0; m_len_middle := 0;
     m_delta_right := 0; m_delta_middle := 0;
     m_last_right := 0; m_last_middle := 0;
     m_delta_theta := 0; m_alpha := 0;
     m_radius_right := 0; m_radius_middle := 0;
     m_chord_right := 0; m_chord_middle := 0;
     m_polar_offset := 0 |}.

(** The data members of [c_Odometry] that the methods of odometry.cpp read
    or write.  [m_update_task] is the [pros::Task*]: [None] is [nullptr],
    [Some t] points at entry [t] of the task table.  The sensor object is an
    input of each iteration; the chassis handle and the goal and ball
    coordinate tables are stored by the constructor and never read. *)
Record c_Odometry : Type := {
  m_starting_side : c_Robot_Starting_Pos_Side;
  m_starting_x : R;
  m_starting_y : R;
  m_starting_angle : R;
  m_offset_x : R;
  m_offset_y : R;
  m_offset_angle : R;
  m_global_x : R;
  m_global_y : R;
  m_global_angle : R;
  m_update_task : option nat
}.

(** The in-class initial values of the members the constructor body leaves
    alone; the header that gives them is not part of the sources, so they
    are an argument of [new_c_Odometry]. *)
Record header_defaults : Type := {
  d_offset_x : R;
  d_offset_y : R;
  d_offset_angle : R;
  d_global_x : R;
  d_global_y : R;
  d_global_angle : R
}.

(** ** Constructor, calibration, getters *)

(** The position the constructor's switch selects. *)
Definition selected_start (starting_coords : c_Robot_Starting_Positions)
    (starting_side : c_Robot_Starting_Pos_Side) : Coord.t :=
  match starting_side with
  | RED => m_live_start_red starting_coords
  | BLUE => m_live_start_blue starting_coords
  | SKILLS => m_skills starting_coords
  end.

(** [c_Odometry::c_Odometry]: the switch over the side copies one starting
    position into [m_starting_x], [m_starting_y], [m_starting_angle].  The
    task pointer starts as [nullptr], the value [stop_odom] tests for. *)
Definition new_c_Odometry (starting_coords : c_Robot_Starting_Positions)
    (starting_side : c_Robot_Starting_Pos_Side) (d : header_defaults)
  : c_Odometry :=
  let m_starting_side' := starting_side in
  let '(sx, sy, sa) :=
    match m_starting_side' with
    | RED =>
        (Coord.x (m_live_start_red starting_coords),
         Coord.y (m_live_start_red starting_coords),
         Coord.head (m_live_start_red starting_coords))
    | BLUE =>
        (Coord.x (m_live_start_blue starting_coords),
         Coord.y (m_live_start_blue starting_coords),
         Coord.head (m_live_start_blue starting_coords))
    | SKILLS =>
        (Coord.x (m_skills starting_coords),
         Coord.y (m_skills starting_coords),
         Coord.head (m_skills starting_coords))
    end in
  {| m_starting_side := m_starting_side';
     m_starting_x := sx; m_starting_y := sy; m_starting_angle := sa;
     m_offset_x := d_offset_x d; m_offset_y := d_offset_y d;
     m_offset_angle := d_offset_angle d;
     m_global_x := d_global_x d; m_global_y := d_global_y d;
     m_global_angle := d_global_angle d;
     m_update_task := None |}.

(** [c_Odometry::calibrate]. *)
Definition calibrate (o : c_Odometry) : c_Odometry :=
  let offset_x := 0 in
  let offset_y := 0 in
  let offset_angle := 0 in
  {| m_starting_side := m_starting_side o;
     m_starting_x := m_starting_x o;
     m_starting_y := m_starting_y o;
     m_starting_angle := m_starting_angle o;
     m_offset_x := offset_x;
     m_offset_y := offset_y;
     m_offset_angle := offset_angle;
     m_global_x := m_starting_x o + offset_x;
     m_global_y := m_starting_y o + offset_y;
     m_global_angle := m_starting_angle o + offset_angle;
     m_update_task := m_update_task o |}.

Definition get_x (o : c_Odometry) : R := m_global_x o.
Definition get_y (o : c_Odometry) : R := m_global_y o.
Definition get_angle (o : c_Odometry) : R := m_global_angle o.

(** The selection the constructor made: its side and that side's triple. *)
Definition start_of (o : c_Odometry) : c_Robot_Starting_Pos_Side * (R * R * R) :=
  (m_starting_side o, (m_starting_x o, m_starting_y o, m_starting_angle o)).

(** The Pose of the specification: what the three getters return. *)
Definition pose (o : c_Odometry) : R * R * R := (get_x o, get_y o, get_angle o).

(** The CalibrationOffset of the specification. *)
Definition calibration_offset (o : c_Odometry) : R * R * R :=
  (m_offset_x o, m_offset_y o, m_offset_angle o).

(** The StartingPoseConfig triple of a side. *)
Definition starting_pose (starting_coords : c_Robot_Starting_Positions)
    (side : c_Robot_Starting_Pos_Side) : R * R * R :=
  let c := selected_start starting_coords side in
  (Coord.x c, Coord.y c, Coord.head c).

(** ** The deadband filter *)

(** [c_Odometry::m_filter_values]. *)
Definition m_filter_values (current_val last_val : R) : R :=
  let filter := current_val - last_val in
  if Rlt_dec (Rabs filter) 0.01 then 0 else filter.

(** The conversion of a [double] to [bool] in [if (m_delta_theta)]: true
    unless the value is zero. *)
Definition to_bool (d : R) : bool :=
  if Req_dec_T d 0 then false else true.

(** ** Sample data

    A conversion and concrete inputs at which the statements below are
    evaluated. *)

(** Modelled from the spec: [u_deg_to_rad], the conversion of the filtered
    rotation total from degrees to radians; its definition is in a header
    that is not part of the sources. *)
Definition deg_to_rad (deg : R) : R := deg * PI / 180.

(** A table of starting positions: inches, inches, heading. *)
Definition sample_starts : c_Robot_Starting_Positions :=
  {| m_live_start_red := Coord.mk 36 12 90;
     m_live_start_blue := Coord.mk 108 12 0;
     m_skills := Coord.mk 60 12 0 |}.

Definition zero_defaults : header_defaults :=
  {| d_offset_x := 0; d_offset_y := 0; d_offset_angle := 0;
     d_global_x := 0; d_global_y := 0; d_global_angle := 0 |}.

(** Sensor values of a robot with 2.75 inch tracking wheels, the right one
    5 inches and the middle one 3 inches from the turning center: the three
    angles and the two encoder readings are the arguments. *)
Definition reading (rotation pitch roll right middle : R) : h_Sensors :=
  {| imu_get_rotation := rotation;
     imu_get_pitch := pitch;
     imu_get_roll := roll;
     tracking_wheels_get := fun id =>
       match id with RIGHT => right | MIDDLE => middle end;
     tracking_wheels_get_diameter := 2.75;
     tracking_wheels_get_side_radius := 5;
     tracking_wheels_get_middle_radius := 3 |}.

(** The robot at rest with every sensor at zero. *)
Definition still : h_Sensors := reading 0 0 0 0 0.

(** The encoder angle that is worth one inch of travel of a 2.75 inch wheel. *)
Definition one_inch : R := 360 / (2.75 * PI).

(** ** The loop body in binary64

    The same loop body with every [double] as an IEEE 754 binary64 number,
    every operation rounded as the machine rounds it.  [sin] and [cos] come
    from the C library and are parameters, as is [u_deg_to_rad]; of the
    object only the three members the loop body touches are kept. *)

Module Binary64.

Local Open Scope float_scope.

#[local] Set Warnings "-inexact-float".

(** [M_PI], the binary64 number nearest to pi. *)
Definition M_PI : float := 0x1.921fb54442d18p+1.

Record h_Sensors : Type := {
  imu_get_rotation : float;
  imu_get_pitch : float;
  imu_get_roll : float;
  tracking_wheels_get : h_Sensors_Tracking_Wheel_IDs -> float;
  tracking_wheels_get_diameter : float;
  tracking_wheels_get_side_radius : float;
  tracking_wheels_get_middle_radius : float
}.

Record m_update_locals : Type := {
  m_current_rotation : float;
  m_filtered_rotation : float;
  m_last_rotation : float;
  m_current_pitch : float;
  m_filtered_pitch : float;
  m_last_pitch : float;
  m_current_roll : float;
  m_filtered_roll : float;
  m_last_roll : float;
  m_len_right : float;
  m_len_middle : float;
  m_delta_right : float;
  m_delta_middle : float;
  m_last_right : float;
  m_last_middle : float;
  m_delta_theta : float;
  m_alpha : float;
  m_radius_right : float;
  m_radius_middle : float;
  m_chord_right : float;
  m_chord_middle : float;
  m_polar_offset : float
}.

Definition m_update_locals_init : m_update_locals :=
  {| m_current_rotation := 0; m_filtered_rotation := 0; m_last_rotation := 0;
     m_current_pitch := 0; m_filtered_pitch := 0; m_last_pitch := 0;
     m_current_roll := 0; m_filtered_roll := 0; m_last_roll := 0;
     m_len_right := 0; m_len_middle := 0;
     m_delta_right := 0; m_delta_middle := 0;
     m_last_right := 0; m_last_middle := 0;
     m_delta_theta := 0; m_alpha := 0;
     m_radius_right := 0; m_radius_middle := 0;
     m_chord_right := 0; m_chord_middle := 0;
     m_polar_offset := 0 |}.

(** The members of [c_Odometry] that the loop body reads and writes. *)
Record c_Odometry : Type := {
  m_global_x : float;
  m_global_y : float;
  m_global_angle : float
}.

(** [c_Odometry::m_filter_values]. *)
Definition m_filter_values (current_val last_val : float) : float :=
  let filter := current_val - last_val in
  if abs filter <? 0.01 then 0 else filter.

(** The conversion of a [double] to [bool] in [if (m_delta_theta)]: false
    for [+0.0] and [-0.0], true for everything else, NaN included. *)
Definition to_bool (d : float) : bool := negb (d =? 0).

Section Loop.

Variables sin cos u_deg_to_rad : float -> float.

(** One iteration of the [while(true)] loop of [c_Odometry::m_update_func]. *)
Definition m_update_iter (sens : h_Sensors) (st : c_Odometry * m_update_locals)
  : c_Odometry * m_update_locals :=
  let (o, l) := st in
  let current_rotation := imu_get_rotation sens in
  let filtered_rotation :=
    m_filtered_rotation l + m_filter_values current_rotation (m_last_rotation l) in
  let last_rotation := current_rotation in
  let current_pitch := imu_get_pitch sens in
  let filtered_pitch :=
    m_filtered_pitch l + m_filter_values current_pitch (m_last_pitch l) in
  let last_pitch := current_pitch in
  let current_roll := imu_get_roll sens in
  let filtered_roll :=
    m_filtered_roll l + m_filter_values current_roll (m_last_roll l) in
  let last_roll := current_roll in
  let len_right :=
    tracking_wheels_get sens RIGHT / 360
    * (tracking_wheels_get_diameter sens * M_PI) in
  let len_middle :=
    tracking_wheels_get sens MIDDLE / 360
    * (tracking_wheels_get_diameter sens * M_PI) in
  let delta_right := len_right - m_last_right l in
  let delta_middle := len_middle - m_last_middle l in
  let last_right := len_right in
  let last_middle := len_middle in
  let delta_theta := u_deg_to_rad filtered_rotation - m_global_angle o in
  let '(alpha, radius_right, chord_right, radius_middle, chord_middle) :=
    if to_bool delta_theta then
      let alpha := delta_theta / 2 in
      let radius_right :=
        delta_right / delta_theta + tracking_wheels_get_side_radius sens in
      let chord_right := (radius_right * sin alpha) * 2 in
      let radius_middle :=
        delta_middle / delta_theta + tracking_wheels_get_middle_radius sens in
      let chord_middle := (radius_middle * sin alpha) * 2 in
      (alpha, radius_right, chord_right, radius_middle, chord_middle)
    else
      (0, m_radius_right l, delta_right, m_radius_middle l, delta_middle) in
  let polar_offset := m_global_angle o + alpha in
  let global_x := m_global_x o + chord_right * sin polar_offset in
  let global_x := global_x + chord_middle * cos polar_offset in
  let global_y := m_global_y o + chord_right * cos polar_offset in
  let global_y := global_y + chord_middle * - sin polar_offset in
  let global_angle := m_global_angle o + delta_theta in
  ({| m_global_x := global_x;
      m_global_y := global_y;
      m_global_angle := global_angle |},
   {| m_current_rotation := current_rotation;
      m_filtered_rotation := filtered_rotation;
      m_last_rotation := last_rotation;
      m_current_pitch := current_pitch;
      m_filtered_pitch := filtered_pitch;
      m_last_pitch := last_pitch;
      m_current_roll := current_roll;
      m_filtered_roll := filtered_roll;
      m_last_roll := last_roll;
      m_len_right := len_right;
      m_len_middle := len_middle;
      m_delta_right := delta_right;
      m_delta_middle := delta_middle;
      m_last_right := last_right;
      m_last_middle := last_middle;
      m_delta_theta := delta_theta;
      m_alpha := alpha;
      m_radius_right := radius_right;
      m_radius_middle := radius_middle;
      m_chord_right := chord_right;
      m_chord_middle := chord_middle;
      m_polar_offset := polar_offset |}).

End Loop.

(** Modelled from the spec: [u_deg_to_rad], the conversion from degrees to
    radians, with the operations of a [double]. *)
Definition deg_to_rad (deg : float) : float := deg * M_PI / 180.




End Binary64.

(** ** The ball macros of autonomous.cpp

    [score], [descore] and [intake_until_in] poll the vision sensor in a
    loop and drive the conveyor and the intake.  A macro is modelled as a
    function of the objects the sensor returns, one per call of
    [get_obj_siz] or [get_obj_sig], in the order of the calls: it gives the
    calls the macro makes on the motors and on [pros::delay], and, when the
    macro returns, the objects it has not asked for.  When the objects run
    out the macro is still in its loop. *)

(** The two fields of [pros::vision_object_s_t] the macros read. *)
Record vision_object_s_t : Type := {
  signature : Z;
  width : Z
}.

(** The constants the macros take from headers that are not part of the
    sources: two enumerators of [h_sVision_IDs] and [k_Hardware]'s read
    time. *)
Record k_Macros : Type := {
  RED_ID : Z;
  NULL_ID : Z;
  h_max_readtime : Z
}.

(** A call on [h_obj_conveyor->set_vel], on [h_obj_intake->set_vel] (with
    the arguments written at the call, none for [set_vel()]) or on
    [pros::delay]. *)
Inductive call : Type :=
| conveyor_set_vel (args : list Z)
| intake_set_vel (args : list Z)
| delay (ms : Z).

(** How the first loop of [descore] is left. *)
Inductive loop_exit : Type :=
| Break
| Return.

Section Macros.

Local Open Scope Z_scope.

Variable k : k_Macros.

(** [score]. *)
Fixpoint score (seen : list vision_object_s_t)
  : list call * option (list vision_object_s_t) :=
  match seen with
  | [] => ([], None)
  | ball :: rest =>
      if (signature ball =? RED_ID k) && (width ball >? 200) then
        ([delay 100; conveyor_set_vel []], Some rest)
      else if signature ball =? NULL_ID k then
        ([delay 100; conveyor_set_vel []], Some rest)
      else
        let (calls, left) := score rest in
        (conveyor_set_vel [600] :: delay (h_max_readtime k) :: calls, left)
  end.

(** The first loop of [descore]. *)
Fixpoint descore_loop_1 (seen : list vision_object_s_t)
  : list call * option (loop_exit * list vision_object_s_t) :=
  match seen with
  | [] => ([], None)
  | ball :: rest =>
      if (signature ball =? RED_ID k) && (width ball >? 50) then
        ([intake_set_vel []], Some (Break, rest))
      else if signature ball =? NULL_ID k then
        ([conveyor_set_vel []; intake_set_vel []], Some (Return, rest))
      else
        let (calls, left) := descore_loop_1 rest in
        (conveyor_set_vel [if width ball >? 50 then -600 else 600; 600]
           :: intake_set_vel [600] :: delay (h_max_readtime k) :: calls,
         left)
  end.

(** The second loop of [descore]. *)
Fixpoint descore_loop_2 (seen : list vision_object_s_t)
  : list call * option (list vision_object_s_t) :=
  match seen with
  | [] => ([], None)
  | ball :: rest =>
      if width ball >? 200 then
        ([delay 100; conveyor_set_vel []], Some rest)
      else
        let (calls, left) := descore_loop_2 rest in
        (conveyor_set_vel [600] :: delay (h_max_readtime k) :: calls, left)
  end.

(** [descore]. *)
Definition descore (seen : list vision_object_s_t)
  : list call * option (list vision_object_s_t) :=
  let head := [conveyor_set_vel [600]; intake_set_vel [600]; delay 750] in
  match descore_loop_1 seen with
  | (calls_1, None) => (head ++ calls_1, None)
  | (calls_1, Some (Return, rest)) => (head ++ calls_1, Some rest)
  | (calls_1, Some (Break, rest)) =>
      let (calls_2, left) := descore_loop_2 rest in
      (head ++ calls_1 ++ calls_2, left)
  end.

(** The inner loop of [intake_until_in]. *)
Fixpoint intake_until_in_loop (seen : list vision_object_s_t)
  : list call * option (list vision_object_s_t) :=
  match seen with
  | [] => ([], None)
  | ball :: rest =>
      if width ball >? 40 then
        ([conveyor_set_vel []; intake_set_vel []], Some rest)
      else
        let (calls, left) := intake_until_in_loop rest in
        (conveyor_set_vel [600] :: intake_set_vel [600]
           :: delay (h_max_readtime k) :: calls,
         left)
  end.

(** [intake_until_in]: [takes] are the values [notify_take] returns, one
    per evaluation of the outer loop's condition. *)
Fixpoint intake_until_in (takes : list Z) (seen : list vision_object_s_t)
  : list call * option (list vision_object_s_t) :=
  match takes with
  | [] => ([], None)
  | n :: takes' =>
      if n =? 0 then ([], Some seen)
      else
        match intake_until_in_loop seen with
        | (calls, None) => (calls, None)
        | (calls, Some rest) =>
            let (calls', left) := intake_until_in takes' rest in
            (calls ++ calls', left)
        end
  end.

End Macros.

(** The arguments of the last call on the conveyor, if there is one. *)
Definition final_conveyor (calls : list call) : option (list Z) :=
  fold_left (fun acc c =>
               match c with conveyor_set_vel args => Some args | _ => acc end)
            calls None.

(** The arguments of the last call on the intake, if there is one. *)
Definition final_intake (calls : list call) : option (list Z) :=
  fold_left (fun acc c =>
               match c with intake_set_vel args => Some args | _ => acc end)
            calls None.

(** The number of objects wider than 40 among the objects seen. *)
Definition taken_in (seen : list vision_object_s_t) : nat :=
  length (filter (fun ball => (width ball >? 40)%Z) seen).

(** What [score] leaves its loop on: a red object wider than 200, or no
    object. *)
Definition score_done (k : k_Macros) (ball : vision_object_s_t) : bool :=
  ((signature ball =? RED_ID k) && (width ball >? 200))%Z
  || (signature ball =? NULL_ID k)%Z.

(** Sample values of the vision constants, and three objects: a red one of
    a given width, one of another colour, and the null object. *)
Definition sample_ids : k_Macros :=
  {| RED_ID := 1; NULL_ID := 0; h_max_readtime := 10 |}.

Definition red_ball (w : Z) : vision_object_s_t :=
  {| signature := 1; width := w |}.

Definition blue_ball (w : Z) : vision_object_s_t :=
  {| signature := 2; width := w |}.

Definition no_ball : vision_object_s_t :=
  {| signature := 0; width := 0 |}.

(** ** The update loop *)

Section Update.

(** [u_deg_to_rad] comes from a utilities header that is not part of the
    sources; the loop is modelled for an arbitrary conversion. *)
Variable u_deg_to_rad : R -> R.

(** The distance a tracking wheel has travelled, in inches: the encoder
    reading over 360, times the wheel's circumference. *)
Definition wheel_len (sens : h_Sensors) (id : h_Sensors_Tracking_Wheel_IDs) : R :=
  tracking_wheels_get sens id / 360 * (tracking_wheels_get_diameter sens * PI).

(** One iteration of the [while(true)] loop of [c_Odometry::m_update_func],
    statement by statement.  The four [pros::lcd::print] calls and the
    [pros::delay] at the end of the body change nothing that is modelled. *)
Definition m_update_iter (sens : h_Sensors) (st : c_Odometry * m_update_locals)
  : c_Odometry * m_update_locals :=
  let (o, l) := st in
  (* Getting rotation, pitch, and roll *)
  let current_rotation := imu_get_rotation sens in
  let filtered_rotation :=
    m_filtered_rotation l + m_filter_values current_rotation (m_last_rotation l) in
  let last_rotation := current_rotation in
  let current_pitch := imu_get_pitch sens in
  let filtered_pitch :=
    m_filtered_pitch l + m_filter_values current_pitch (m_last_pitch l) in
  let last_pitch := current_pitch in
  let current_roll := imu_get_roll sens in
  let filtered_roll :=
    m_filtered_roll l + m_filter_values current_roll (m_last_roll l) in
  let last_roll := current_roll in
  (* Find out the length each encoder moved. *)
  let len_right := wheel_len sens RIGHT in
  let len_middle := wheel_len sens MIDDLE in
  (* Find the change since last update. *)
  let delta_right := len_right - m_last_right l in
  let delta_middle := len_middle - m_last_middle l in
  (* Update previous values. *)
  let last_right := len_right in
  let last_middle := len_middle in
  (* Determine change in angle. *)
  let delta_theta := u_deg_to_rad filtered_rotation - m_global_angle o in
  (* Determine if robot turned or not and calculate accordingly. *)
  let '(alpha, radius_right, chord_right, radius_middle, chord_middle) :=
    if to_bool delta_theta then
      let alpha := delta_theta / 2 in
      let radius_right :=
        delta_right / delta_theta + tracking_wheels_get_side_radius sens in
      let chord_right := (radius_right * sin alpha) * 2 in
      let radius_middle :=
        delta_middle / delta_theta + tracking_wheels_get_middle_radius sens in
      let chord_middle := (radius_middle * sin alpha) * 2 in
      (alpha, radius_right, chord_right, radius_middle, chord_middle)
    else
      (0, m_radius_right l, delta_right, m_radius_middle l, delta_middle) in
  (* Find the polar offset needed. *)
  let polar_offset := m_global_angle o + alpha in
  (* Add the change to the global coordinates. *)
  let global_x := m_global_x o + chord_right * sin polar_offset in
  let global_x := global_x + chord_middle * cos polar_offset in
  let global_y := m_global_y o + chord_right * cos polar_offset in
  let global_y := global_y + chord_middle * - sin polar_offset in
  (* Update the global angle. *)
  let global_angle := m_global_angle o + delta_theta in
  ({| m_starting_side := m_starting_side o;
      m_starting_x := m_starting_x o;
      m_starting_y := m_starting_y o;
      m_starting_angle := m_starting_angle o;
      m_offset_x := m_offset_x o;
      m_offset_y := m_offset_y o;
      m_offset_angle := m_offset_angle o;
      m_global_x := global_x;
      m_global_y := global_y;
      m_global_angle := global_angle;
      m_update_task := m_update_task o |},
   {| m_current_rotation := current_rotation;
      m_filtered_rotation := filtered_rotation;
      m_last_rotation := last_rotation;
      m_current_pitch := current_pitch;
      m_filtered_pitch := filtered_pitch;
      m_last_pitch := last_pitch;
      m_current_roll := current_roll;
      m_filtered_roll := filtered_roll;
      m_last_roll := last_roll;
      m_len_right := len_right;
      m_len_middle := len_middle;
      m_delta_right := delta_right;
      m_delta_middle := delta_middle;
      m_last_right := last_right;
      m_last_middle := last_middle;
      m_delta_theta := delta_theta;
      m_alpha := alpha;
      m_radius_right := radius_right;
      m_radius_middle := radius_middle;
      m_chord_right := chord_right;
      m_chord_middle := chord_middle;
      m_polar_offset := polar_offset |}).

(** [c_Odometry::m_update_func] from its entry: the locals start at zero and
    the loop body runs once per sensor snapshot.  The loop never exits by
    itself, so a run is given by the snapshots of the iterations it has
    completed so far. *)
Definition m_update_func (samples : list h_Sensors) (o : c_Odometry)
  : c_Odometry * m_update_locals :=
  fold_left (fun st sens => m_update_iter sens st) samples (o, m_update_locals_init).

(** ** Tasks and the life cycle *)

(** The object together with the table of the tasks created so far: entry
    [t] holds the locals of task [t] while it is alive, [None] once it has
    been removed. *)
Record world : Type := {
  odom : c_Odometry;
  tasks : list (option m_update_locals)
}.

(** Overwrite entry [t] of the task table (nothing happens out of range). *)
Fixpoint set_task (t : nat) (v : option m_update_locals)
    (ts : list (option m_update_locals)) : list (option m_update_locals) :=
  match ts, t with
  | [], _ => []
  | _ :: ts', O => v :: ts'
  | e :: ts', S t' => e :: set_task t' v ts'
  end.

Definition with_task (o : c_Odometry) (p : option nat) : c_Odometry :=
  {| m_starting_side := m_starting_side o;
     m_starting_x := m_starting_x o;
     m_starting_y := m_starting_y o;
     m_starting_angle := m_starting_angle o;
     m_offset_x := m_offset_x o;
     m_offset_y := m_offset_y o;
     m_offset_angle := m_offset_angle o;
     m_global_x := m_global_x o;
     m_global_y := m_global_y o;
     m_global_angle := m_global_angle o;
     m_update_task := p |}.

(** [c_Odometry::start_odom]: a new task is created at the entry of
    [m_update_func] and [m_update_task] points at it, whatever it pointed at
    before. *)
Definition start_odom (w : world) : world :=
  {| odom := with_task (odom w) (Some (length (tasks w)));
     tasks := tasks w ++ [Some m_update_locals_init] |}.

(** [c_Odometry::stop_odom]: the task [m_update_task] points at, if any, is
    removed and the pointer is cleared. *)
Definition stop_odom (w : world) : world :=
  match m_update_task (odom w) with
  | Some t =>
      {| odom := with_task (odom w) None;
         tasks := set_task t None (tasks w) |}
  | None => w
  end.

(** What can happen to the object: a call of one of its public methods, or
    one loop iteration of a live task with the sensor values it reads. *)
Inductive event : Type :=
| Calibrate
| Start_odom
| Stop_odom
| Tick (t : nat) (sens : h_Sensors).

Definition step (e : event) (w : world) : world :=
  match e with
  | Calibrate => {| odom := calibrate (odom w); tasks := tasks w |}
  | Start_odom => start_odom w
  | Stop_odom => stop_odom w
  | Tick t sens =>
      match nth_error (tasks w) t with
      | Some (Some l) =>
          let (o', l') := m_update_iter sens (odom w, l) in
          {| odom := o'; tasks := set_task t (Some l') (tasks w) |}
      | _ => w
      end
  end.

Definition run (es : list event) (w : world) : world :=
  fold_left (fun w e => step e w) es w.

(** The world right after construction: no task yet. *)
Definition boot (starting_coords : c_Robot_Starting_Positions)
    (starting_side : c_Robot_Starting_Pos_Side) (d : header_defaults) : world :=
  {| odom := new_c_Odometry starting_coords starting_side d; tasks := [] |}.

(** Every sensor delta of an iteration is zero: the three angular readings
    and the two wheel distances are what the previous iteration left in the
    [m_last_*] locals. *)
Definition zero_input (sens : h_Sensors) (l : m_update_locals) : Prop :=
  imu_get_rotation sens = m_last_rotation l /\
  imu_get_pitch sens = m_last_pitch l /\
  imu_get_roll sens = m_last_roll l /\
  wheel_len sens RIGHT = m_last_right l /\
  wheel_len sens MIDDLE = m_last_middle l.

(** The straight-line results of an iteration: no half-angle, and each chord
    is the raw wheel delta. *)
Definition straight_line (l' : m_update_locals) : Prop :=
  m_alpha l' = 0 /\
  m_chord_right l' = m_delta_right l' /\
  m_chord_middle l' = m_delta_middle l'.


(** ** Further notions used by the statements *)

(** The loop body run once per sensor snapshot, from any state of the loop
    ([m_update_func] is the case of the loop's entry). *)
Definition m_update_iters (samples : list h_Sensors)
    (st : c_Odometry * m_update_locals) : c_Odometry * m_update_locals :=
  fold_left (fun st sens => m_update_iter sens st) samples st.

(** The values that the four [pros::lcd::print] calls at the end of the loop
    body put on lines 0 to 3 of the display, read from the locals as the
    body leaves them. *)
Definition lcd_lines (l' : m_update_locals) : list (list R) :=
  [ [m_current_rotation l'; m_current_pitch l'; m_current_roll l'];
    [m_filtered_rotation l'; m_filtered_pitch l'; m_filtered_roll l'];
    [m_last_rotation l'; m_last_pitch l'; m_last_roll l'];
    [m_filter_values (m_current_rotation l') (m_last_rotation l')] ].

(** A creeping rotation: every reading is less than the filter's 0.01 away
    from the reading before it, [last] being the reading before the first. *)
Fixpoint creeping (last : R) (samples : list h_Sensors) : Prop :=
  match samples with
  | [] => True
  | sens :: rest =>
      Rabs (imu_get_rotation sens - last) < 0.01 /\
      creeping (imu_get_rotation sens) rest
  end.

(** Every live task of the table is the one [m_update_task] points at. *)
Definition only_pointed (w : world) : Prop :=
  forall (t : nat) (l : m_update_locals),
    nth_error (tasks w) t = Some (Some l) -> m_update_task (odom w) = Some t.

(** A sensor snapshot with the pitch and roll readings replaced by zero. *)
Definition level (sens : h_Sensors) : h_Sensors :=
  {| imu_get_rotation := imu_get_rotation sens;
     imu_get_pitch := 0;
     imu_get_roll := 0;
     tracking_wheels_get := tracking_wheels_get sens;
     tracking_wheels_get_diameter := tracking_wheels_get_diameter sens;
     tracking_wheels_get_side_radius := tracking_wheels_get_side_radius sens;
     tracking_wheels_get_middle_radius := tracking_wheels_get_middle_radius sens |}.

(** The locals with the six pitch and roll variables replaced by zero. *)
Definition forget_attitude (l : m_update_locals) : m_update_locals :=
  {| m_current_rotation := m_current_rotation l;
     m_filtered_rotation := m_filtered_rotation l;
     m_last_rotation := m_last_rotation l;
     m_current_pitch := 0;
     m_filtered_pitch := 0;
     m_last_pitch := 0;
     m_current_roll := 0;
     m_filtered_roll := 0;
     m_last_roll := 0;
     m_len_right := m_len_right l;
     m_len_middle := m_len_middle l;
     m_delta_right := m_delta_right l;
     m_delta_middle := m_delta_middle l;
     m_last_right := m_last_right l;
     m_last_middle := m_last_middle l;
     m_delta_theta := m_delta_theta l;
     m_alpha := m_alpha l;
     m_radius_right := m_radius_right l;
     m_radius_middle := m_radius_middle l;
     m_chord_right := m_chord_right l;
     m_chord_middle := m_chord_middle l;
     m_polar_offset := m_polar_offset l |}.

(** [start_odom] is never called while [m_update_task] points at a task:
    [running] tells whether it does before the first event. *)
Fixpoint no_double_start (running : bool) (es : list event) : Prop :=
  match es with
  | [] => True
  | Start_odom :: rest => running = false /\ no_double_start true rest
  | Stop_odom :: rest => no_double_start false rest
  | _ :: rest => no_double_start running rest
  end.

(** [only_pointed] together with what [running] says about the pointer. *)
Definition disciplined (running : bool) (w : world) : Prop :=
  only_pointed w /\ (running = false -> m_update_task (odom w) = None).

(** ** Readers *)



Definition with_pose (o : c_Odometry) (gx gy ga : R) : c_Odometry :=
  {| m_starting_side := m_starting_side o;
     m_starting_x := m_starting_x o;
     m_starting_y := m_starting_y o;
     m_starting_angle := m_starting_angle o;
     m_offset_x := m_offset_x o;
     m_offset_y := m_offset_y o;
     m_offset_angle := m_offset_angle o;
     m_global_x := gx;
     m_global_y := gy;
     m_global_angle := ga;
     m_update_task := m_update_task o |}.

(** The object after each of the five assignments that end the loop body
    (two [+=] on [m_global_x], two on [m_global_y], one on
    [m_global_angle]); the chords, the polar offset and the heading delta
    are the ones the iteration has computed by then. *)
Definition m_update_writes (sens : h_Sensors) (st : c_Odometry * m_update_locals)
  : list c_Odometry :=
  let (o, l) := st in
  let l' := snd (m_update_iter sens (o, l)) in
  let x1 := m_global_x o + m_chord_right l' * sin (m_polar_offset l') in
  let x2 := x1 + m_chord_middle l' * cos (m_polar_offset l') in
  let y1 := m_global_y o + m_chord_right l' * cos (m_polar_offset l') in
  let y2 := y1 + m_chord_middle l' * - sin (m_polar_offset l') in
  let a1 := m_global_angle o + m_delta_theta l' in
  [ with_pose o x1 (m_global_y o) (m_global_angle o);
    with_pose o x2 (m_global_y o) (m_global_angle o);
    with_pose o x2 y1 (m_global_angle o);
    with_pose o x2 y2 (m_global_angle o);
    with_pose o x2 y2 a1 ].

(** ** Basic facts *)

Lemma to_bool_true_iff (d : R) : to_bool d = true <-> d <> 0.
Proof.
  unfold to_bool. destruct (Req_dec_T d 0) as [E | N]; split; intro H.
  - discriminate H.
  - contradiction.
  - exact N.
  - reflexivity.
Qed.

Lemma to_bool_false_iff (d : R) : to_bool d = false <-> d = 0.
Proof.
  unfold to_bool. destruct (Req_dec_T d 0) as [E | N]; split; intro H.
  - exact E.
  - reflexivity.
  - discriminate H.
  - contradiction.
Qed.

Lemma m_filter_values_below (current_val last_val : R) :
  Rabs (current_val - last_val) < 0.01 ->
  m_filter_values current_val last_val = 0.
Proof.
  intro H. unfold m_filter_values. cbv zeta.
  destruct (Rlt_dec (Rabs (current_val - last_val)) 0.01) as [_ | N].
  - reflexivity.
  - contradiction.
Qed.

Lemma m_filter_values_pass (current_val last_val : R) :
  ~ Rabs (current_val - last_val) < 0.01 ->
  m_filter_values current_val last_val = current_val - last_val.
Proof.
  intro H. unfold m_filter_values. cbv zeta.
  destruct (Rlt_dec (Rabs (current_val - last_val)) 0.01) as [L | _].
  - contradiction.
  - reflexivity.
Qed.

Lemma m_filter_values_same (v : R) : m_filter_values v v = 0.
Proof.
  apply m_filter_values_below.
  replace (v - v) with 0 by ring. rewrite Rabs_R0. lra.
Qed.

(** ** One iteration *)

(** Open the loop body and split on the test of [m_delta_theta]; [Hb] names
    the outcome of the test. *)
Ltac iter_branches Hb :=
  unfold m_update_iter; cbv zeta;
  destruct (to_bool _) eqn:Hb;
  cbn [fst snd
       m_current_rotation m_filtered_rotation m_last_rotation
       m_current_pitch m_filtered_pitch m_last_pitch
       m_current_roll m_filtered_roll m_last_roll
       m_len_right m_len_middle m_delta_right m_delta_middle
       m_last_right m_last_middle m_delta_theta m_alpha
       m_radius_right m_radius_middle m_chord_right m_chord_middle
       m_polar_offset
       m_starting_side m_starting_x m_starting_y m_starting_angle
       m_offset_x m_offset_y m_offset_angle
       m_global_x m_global_y m_global_angle m_update_task].

(** The running rotation total after the iteration. *)
Lemma iter_filtered_rotation sens o l :
  m_filtered_rotation (snd (m_update_iter sens (o, l)))
  = m_filtered_rotation l
    + m_filter_values (imu_get_rotation sens) (m_last_rotation l).
Proof. iter_branches Hb; reflexivity. Qed.

(** What the iteration leaves in the [m_last_*] locals. *)
Lemma iter_last sens o l :
  let l' := snd (m_update_iter sens (o, l)) in
  m_last_rotation l' = imu_get_rotation sens /\
  m_last_pitch l' = imu_get_pitch sens /\
  m_last_roll l' = imu_get_roll sens /\
  m_last_right l' = wheel_len sens RIGHT /\
  m_last_middle l' = wheel_len sens MIDDLE.
Proof. iter_branches Hb; repeat split; reflexivity. Qed.

(** The travel deltas of the two wheels. *)
Lemma iter_deltas sens o l :
  let l' := snd (m_update_iter sens (o, l)) in
  m_delta_right l' = wheel_len sens RIGHT - m_last_right l /\
  m_delta_middle l' = wheel_len sens MIDDLE - m_last_middle l.
Proof. iter_branches Hb; split; reflexivity. Qed.

(** An iteration writes the three [m_global_*] members and nothing else of
    the object. *)
Lemma iter_frame sens o l :
  let o' := fst (m_update_iter sens (o, l)) in
  start_of o' = start_of o /\
  calibration_offset o' = calibration_offset o /\
  m_update_task o' = m_update_task o.
Proof. iter_branches Hb; repeat split; reflexivity. Qed.

(** Of the object, an iteration reads the Pose only. *)
Lemma iter_reads_pose sens (o1 o2 : c_Odometry) l :
  pose o1 = pose o2 ->
  pose (fst (m_update_iter sens (o1, l))) = pose (fst (m_update_iter sens (o2, l))) /\
  snd (m_update_iter sens (o1, l)) = snd (m_update_iter sens (o2, l)).
Proof.
  unfold pose, get_x, get_y, get_angle. intro H.
  injection H as Hx Hy Ha.
  unfold m_update_iter. cbv zeta. rewrite Hx, Hy, Ha.
  destruct (to_bool _); split; reflexivity.
Qed.

(** After an iteration the heading is the conversion of the rotation total:
    [h + (a - h) = a]. *)
Lemma iter_heading sens o l :
  m_global_angle (fst (m_update_iter sens (o, l)))
  = u_deg_to_rad (m_filtered_rotation (snd (m_update_iter sens (o, l)))).
Proof. iter_branches Hb; ring. Qed.

(** The half-angle and the two radii stored by the arc branch. *)
Lemma iter_arc_turning sens o l :
  let l' := snd (m_update_iter sens (o, l)) in
  let dTheta := u_deg_to_rad (m_filtered_rotation l') - m_global_angle o in
  dTheta <> 0 ->
  m_alpha l' = dTheta / 2 /\
  m_radius_right l'
    = m_delta_right l' / dTheta + tracking_wheels_get_side_radius sens /\
  m_radius_middle l'
    = m_delta_middle l' / dTheta + tracking_wheels_get_middle_radius sens.
Proof.
  intros l' dTheta. subst l' dTheta.
  iter_branches Hb; intro H.
  - repeat split; reflexivity.
  - apply to_bool_false_iff in Hb. contradiction.
Qed.

(** The Pose after a straight-line iteration: both chords are projected
    along the unchanged heading. *)
Lemma iter_straight_pose sens o l :
  let o' := fst (m_update_iter sens (o, l)) in
  let l' := snd (m_update_iter sens (o, l)) in
  u_deg_to_rad (m_filtered_rotation l') - m_global_angle o = 0 ->
  m_global_x o'
    = m_global_x o
      + (wheel_len sens RIGHT - m_last_right l) * sin (m_global_angle o)
      + (wheel_len sens MIDDLE - m_last_middle l) * cos (m_global_angle o) /\
  m_global_y o'
    = m_global_y o
      + (wheel_len sens RIGHT - m_last_right l) * cos (m_global_angle o)
      + (wheel_len sens MIDDLE - m_last_middle l) * - sin (m_global_angle o) /\
  m_global_angle o' = m_global_angle o.
Proof.
  intros o' l'. subst o' l'.
  iter_branches Hb; intro Hzero.
  - apply to_bool_true_iff in Hb. contradiction.
  - rewrite Hzero, !Rplus_0_r. repeat split; reflexivity.
Qed.

(** With every sensor delta at zero the rotation total stays. *)
Lemma zero_input_filtered_rotation sens o l :
  zero_input sens l ->
  m_filtered_rotation (snd (m_update_iter sens (o, l))) = m_filtered_rotation l.
Proof.
  intros (Hrot & _).
  rewrite iter_filtered_rotation, Hrot, m_filter_values_same.
  apply Rplus_0_r.
Qed.

(** The same readings twice in a row: the second iteration has no input. *)
Lemma zero_input_repeat sens o l :
  zero_input sens (snd (m_update_iter sens (o, l))).
Proof.
  destruct (iter_last sens o l) as (H1 & H2 & H3 & H4 & H5).
  unfold zero_input. rewrite H1, H2, H3, H4, H5. repeat split; reflexivity.
Qed.

(** No input and a heading that agrees with the rotation total: the
    iteration is the identity on the Pose. *)
Lemma zero_input_synced_pose sens o l :
  zero_input sens l ->
  m_global_angle o = u_deg_to_rad (m_filtered_rotation l) ->
  pose (fst (m_update_iter sens (o, l))) = pose o.
Proof.
  intros Hin Hsync.
  assert (Hzero :
    u_deg_to_rad (m_filtered_rotation (snd (m_update_iter sens (o, l))))
    - m_global_angle o = 0).
  { rewrite (zero_input_filtered_rotation sens o l Hin), Hsync. ring. }
  destruct (iter_straight_pose sens o l Hzero) as (Hx & Hy & Ha).
  destruct Hin as (_ & _ & _ & Hr & Hm).
  unfold pose, get_x, get_y, get_angle.
  rewrite Hx, Hy, Ha, Hr, Hm.
  apply f_equal2; [ apply f_equal2 | ]; ring.
Qed.

(** ** Runs of the loop *)

Lemma m_update_func_snoc samples sens o :
  m_update_func (samples ++ [sens]) o
  = m_update_iter sens (m_update_func samples o).
Proof. unfold m_update_func. rewrite fold_left_app. reflexivity. Qed.

(** However long the loop has run, once it has completed an iteration the
    heading agrees with the rotation total. *)
Lemma m_update_func_heading samples o :
  samples <> [] ->
  m_global_angle (fst (m_update_func samples o))
  = u_deg_to_rad (m_filtered_rotation (snd (m_update_func samples o))).
Proof.
  induction samples as [ | s0 rest _] using rev_ind; intro Hne.
  - contradiction.
  - rewrite m_update_func_snoc.
    destruct (m_update_func rest o) as [o1 l1].
    apply iter_heading.
Qed.

(** ** Events *)

(** A [Tick] of a live task, with the result of the iteration taken apart. *)
Lemma step_tick t sens w l :
  nth_error (tasks w) t = Some (Some l) ->
  step (Tick t sens) w
  = {| odom := fst (m_update_iter sens (odom w, l));
       tasks := set_task t (Some (snd (m_update_iter sens (odom w, l)))) (tasks w) |}.
Proof.
  intro H. cbn [step]. rewrite H.
  destruct (m_update_iter sens (odom w, l)) as [o' l']. reflexivity.
Qed.

Lemma start_of_new starting_coords side d :
  start_of (new_c_Odometry starting_coords side d)
  = (side, starting_pose starting_coords side).
Proof. destruct side; reflexivity. Qed.

(** No event changes what the constructor selected. *)
Lemma step_start_of (e : event) (w : world) :
  start_of (odom (step e w)) = start_of (odom w).
Proof.
  destruct e as [ | | | t sens].
  - reflexivity.
  - reflexivity.
  - cbn [step]. unfold stop_odom. destruct (m_update_task (odom w)); reflexivity.
  - destruct (nth_error (tasks w) t) as [[l | ] | ] eqn:Ht.
    + rewrite (step_tick t sens w l Ht). cbn [odom].
      apply (iter_frame sens (odom w) l).
    + cbn [step]. rewrite Ht. reflexivity.
    + cbn [step]. rewrite Ht. reflexivity.
Qed.

Lemma run_start_of (es : list event) (w : world) :
  start_of (odom (run es w)) = start_of (odom w).
Proof.
  revert w. induction es as [ | e es IH]; intro w.
  - reflexivity.
  - cbn [run fold_left]. fold (run es (step e w)).
    rewrite IH. apply step_start_of.
Qed.

Lemma calibrate_pose (o : c_Odometry) :
  calibration_offset (calibrate o) = (0, 0, 0) /\
  pose (calibrate o) = snd (start_of o).
Proof.
  unfold calibrate, calibration_offset, pose, get_x, get_y, get_angle, start_of.
  cbn. rewrite !Rplus_0_r. split; reflexivity.
Qed.

(** [calibrate] after any run from construction. *)
Lemma calibrate_after_run starting_coords side d es :
  pose (calibrate (odom (run es (boot starting_coords side d))))
  = starting_pose starting_coords side.
Proof.
  destruct (calibrate_pose (odom (run es (boot starting_coords side d))))
    as (_ & H).
  rewrite H, run_start_of. cbn [boot odom].
  rewrite start_of_new. reflexivity.
Qed.

Lemma stop_odom_pose (w : world) : pose (odom (stop_odom w)) = pose (odom w).
Proof. unfold stop_odom. destruct (m_update_task (odom w)); reflexivity. Qed.

Lemma start_odom_pose (w : world) : pose (odom (start_odom w)) = pose (odom w).
Proof. reflexivity. Qed.

(** The task [start_odom] creates is alive and at the entry of the loop. *)
Lemma start_odom_task (w : world) :
  m_update_task (odom (start_odom w)) = Some (length (tasks w)) /\
  nth_error (tasks (start_odom w)) (length (tasks w))
  = Some (Some m_update_locals_init).
Proof.
  split; [ reflexivity | ].
  cbn [start_odom tasks].
  rewrite nth_error_app2 by apply Nat.le_refl.
  rewrite Nat.sub_diag. reflexivity.
Qed.

(** ** The arc integrator *)

(** C1.  In an iteration whose heading delta [dTheta] (the filtered rotation
    total converted to radians, minus the heading of the Pose) is not zero:
    [alpha] is [dTheta / 2]; each wheel's radius is its travel delta over
    [dTheta] plus that wheel's offset from the turning center, and its chord
    is [2 * radius * sin alpha]; the polar offset is the heading plus
    [alpha]; [x] grows by [chordRight * sin polar + chordMiddle * cos polar],
    [y] by [chordRight * cos polar + chordMiddle * (- sin polar)], and the
    heading by [dTheta]. *)
Theorem arc_branch_integration (sens : h_Sensors) (o : c_Odometry)
    (l : m_update_locals) :
  let o' := fst (m_update_iter sens (o, l)) in
  let l' := snd (m_update_iter sens (o, l)) in
  let dTheta := u_deg_to_rad (m_filtered_rotation l') - m_global_angle o in
  dTheta <> 0 ->
  m_delta_theta l' = dTheta /\
  m_alpha l' = dTheta / 2 /\
  m_delta_right l' = wheel_len sens RIGHT - m_last_right l /\
  m_delta_middle l' = wheel_len sens MIDDLE - m_last_middle l /\
  m_radius_right l'
    = m_delta_right l' / dTheta + tracking_wheels_get_side_radius sens /\
  m_radius_middle l'
    = m_delta_middle l' / dTheta + tracking_wheels_get_middle_radius sens /\
  m_chord_right l' = 2 * m_radius_right l' * sin (m_alpha l') /\
  m_chord_middle l' = 2 * m_radius_middle l' * sin (m_alpha l') /\
  m_polar_offset l' = m_global_angle o + m_alpha l' /\
  get_x o'
    = get_x o
      + (m_chord_right l' * sin (m_polar_offset l')
         + m_chord_middle l' * cos (m_polar_offset l')) /\
  get_y o'
    = get_y o
      + (m_chord_right l' * cos (m_polar_offset l')
         + m_chord_middle l' * - sin (m_polar_offset l')) /\
  get_angle o' = get_angle o + dTheta.
Proof.
  intros o' l' dTheta. subst o' l' dTheta.
  unfold get_x, get_y, get_angle.
  iter_branches Hb; intro Hturn.
  - repeat split; try reflexivity; ring.
  - apply to_bool_false_iff in Hb. contradiction.
Qed.

(** C4.  In an iteration whose heading delta is exactly zero, each wheel's
    chord is that wheel's raw travel delta, with no trigonometric correction:
    [chordRight = dRight] and [chordMiddle = dMiddle]. *)
Theorem straight_line_reduction (sens : h_Sensors) (o : c_Odometry)
    (l : m_update_locals) :
  let l' := snd (m_update_iter sens (o, l)) in
  u_deg_to_rad (m_filtered_rotation l') - m_global_angle o = 0 ->
  m_delta_theta l' = 0 /\
  m_alpha l' = 0 /\
  m_delta_right l' = wheel_len sens RIGHT - m_last_right l /\
  m_delta_middle l' = wheel_len sens MIDDLE - m_last_middle l /\
  m_chord_right l' = m_delta_right l' /\
  m_chord_middle l' = m_delta_middle l'.
Proof.
  intros l'. subst l'.
  iter_branches Hb; intro Hzero.
  - apply to_bool_true_iff in Hb. contradiction.
  - repeat split; try reflexivity. exact Hzero.
Qed.

(** C5.  An iteration that starts at heading 0 and has a zero heading delta:
    a travel delta of +1 inch of the right wheel alone adds exactly 1 to [y]
    and leaves [x] as it is; a travel delta of +1 inch of the middle wheel
    alone adds exactly 1 to [x] and leaves [y] as it is. *)
Theorem coordinate_convention (sens : h_Sensors) (o : c_Odometry)
    (l : m_update_locals) :
  let o' := fst (m_update_iter sens (o, l)) in
  let l' := snd (m_update_iter sens (o, l)) in
  get_angle o = 0 ->
  u_deg_to_rad (m_filtered_rotation l') - get_angle o = 0 ->
  (m_delta_right l' = 1 -> m_delta_middle l' = 0 ->
   get_y o' = get_y o + 1 /\ get_x o' = get_x o) /\
  (m_delta_right l' = 0 -> m_delta_middle l' = 1 ->
   get_x o' = get_x o + 1 /\ get_y o' = get_y o).
Proof.
  intros o' l' Hhead Hzero. unfold get_angle in Hhead, Hzero.
  destruct (iter_straight_pose sens o l Hzero) as (Hx & Hy & _).
  fold o' in Hx, Hy. unfold get_x, get_y.
  rewrite Hhead, sin_0, cos_0 in Hx, Hy.
  destruct (iter_deltas sens o l) as (Hdr & Hdm). fold l' in Hdr, Hdm.
  rewrite <- Hdr, <- Hdm in Hx, Hy.
  split; intros Hr Hm; rewrite Hr, Hm in Hx, Hy; rewrite Hx, Hy; split; ring.
Qed.

(** ** The deadband filter inside the loop *)

(** C3.  For every pair of raw readings the filter takes
    [delta = current - last], gives exactly zero when [|delta| < 0.01] and
    gives [delta] itself otherwise; on each of the three angular channels an
    iteration adds the filtered value to the channel's running total and
    stores the current reading as the last one, whatever the filter gave. *)
Theorem deadband_filter_contract (sens : h_Sensors) (o : c_Odometry)
    (l : m_update_locals) :
  let l' := snd (m_update_iter sens (o, l)) in
  (forall current last : R,
      (Rabs (current - last) < 0.01 -> m_filter_values current last = 0) /\
      (~ Rabs (current - last) < 0.01 ->
       m_filter_values current last = current - last)) /\
  (m_filtered_rotation l'
   = m_filtered_rotation l
     + m_filter_values (imu_get_rotation sens) (m_last_rotation l) /\
   m_last_rotation l' = imu_get_rotation sens) /\
  (m_filtered_pitch l'
   = m_filtered_pitch l
     + m_filter_values (imu_get_pitch sens) (m_last_pitch l) /\
   m_last_pitch l' = imu_get_pitch sens) /\
  (m_filtered_roll l'
   = m_filtered_roll l
     + m_filter_values (imu_get_roll sens) (m_last_roll l) /\
   m_last_roll l' = imu_get_roll sens).
Proof.
  intro l'. subst l'. split.
  - intros current last. split.
    + apply m_filter_values_below.
    + apply m_filter_values_pass.
  - iter_branches Hb; repeat split; reflexivity.
Qed.

(** ** Iterations without input *)

(** ** The zero-rotation test *)

(** C7, as the source has it.  The test of the heading delta is the exact
    comparison with zero: either [dTheta] is zero and the straight-line
    results are stored, or [dTheta] is not zero, however small, and the arc
    branch runs, dividing each wheel delta by [dTheta]. *)
Theorem zero_rotation_test_is_exact (sens : h_Sensors) (o : c_Odometry)
    (l : m_update_locals) :
  let l' := snd (m_update_iter sens (o, l)) in
  let dTheta := u_deg_to_rad (m_filtered_rotation l') - m_global_angle o in
  (dTheta = 0 /\ straight_line l') \/
  (dTheta <> 0 /\
   m_alpha l' = dTheta / 2 /\
   m_alpha l' <> 0 /\
   m_radius_right l'
     = m_delta_right l' / dTheta + tracking_wheels_get_side_radius sens /\
   m_radius_middle l'
     = m_delta_middle l' / dTheta + tracking_wheels_get_middle_radius sens).
Proof.
  intros l' dTheta. subst l' dTheta.
  unfold straight_line.
  iter_branches Hb.
  - right. apply to_bool_true_iff in Hb.
    repeat split; try reflexivity; try exact Hb.
    intro Hhalf. apply Hb. lra.
  - left. apply to_bool_false_iff in Hb.
    repeat split; try reflexivity. exact Hb.
Qed.

(** ** Calibration and the life cycle *)

(** C2.  In every state reached from construction by any sequence of events
    (loop iterations, starts, stops, earlier calibrations), and for each of
    the three sides, [calibrate] sets the three offsets to zero and the Pose
    to the starting triple of the side the object was constructed with,
    whatever Pose had been accumulated. *)
Theorem calibrate_resets_pose (starting_coords : c_Robot_Starting_Positions)
    (side : c_Robot_Starting_Pos_Side) (d : header_defaults)
    (es : list event) :
  let w := run es (boot starting_coords side d) in
  m_starting_side (odom w) = side /\
  calibration_offset (calibrate (odom w)) = (0, 0, 0) /\
  pose (calibrate (odom w)) = starting_pose starting_coords side.
Proof.
  intro w.
  assert (Hs : start_of (odom w) = (side, starting_pose starting_coords side)).
  { subst w. rewrite run_start_of. apply start_of_new. }
  destruct (calibrate_pose (odom w)) as (Hoff & Hpose).
  rewrite Hs in Hpose. cbn [snd] in Hpose.
  repeat split; try assumption.
  change (fst (start_of (odom w)) = side). rewrite Hs. reflexivity.
Qed.

(** C8.  From any state, [stop_odom] followed by [start_odom] leaves the
    Pose as it was: neither call writes it.  The task that [start_odom]
    creates is alive, and its first iteration computes the next Pose from
    the preserved one.  With [calibrate] between the two calls the Pose is
    the constructor's starting triple instead. *)
Theorem stop_start_preserves_pose (w : world) :
  let w1 := step Stop_odom w in
  let w2 := step Start_odom w1 in
  pose (odom w1) = pose (odom w) /\
  m_update_task (odom w1) = None /\
  pose (odom w2) = pose (odom w) /\
  (exists t : nat,
      m_update_task (odom w2) = Some t /\
      nth_error (tasks w2) t = Some (Some m_update_locals_init) /\
      forall sens : h_Sensors,
        pose (odom (step (Tick t sens) w2))
        = pose (fst (m_update_iter sens (odom w, m_update_locals_init)))) /\
  pose (odom (step Start_odom (step Calibrate w1))) = snd (start_of (odom w)).
Proof.
  intros w1 w2. subst w1 w2. cbn [step].
  split; [ apply stop_odom_pose | ].
  split; [ unfold stop_odom; destruct (m_update_task (odom w)) eqn:E;
           [ reflexivity | exact E ] | ].
  split; [ rewrite start_odom_pose; apply stop_odom_pose | ].
  split.
  - exists (length (tasks (stop_odom w))).
    destruct (start_odom_task (stop_odom w)) as (Hp & Hl).
    split; [ exact Hp | ]. split; [ exact Hl | ].
    intro sens.
    change (match nth_error (tasks (start_odom (stop_odom w)))
                    (length (tasks (stop_odom w))) with
            | Some (Some l) => _
            | _ => _
            end)
      with (step (Tick (length (tasks (stop_odom w))) sens)
              (start_odom (stop_odom w))).
    rewrite (step_tick _ sens _ _ Hl). cbn [odom].
    apply iter_reads_pose.
    rewrite start_odom_pose. apply stop_odom_pose.
  - rewrite start_odom_pose. cbn [odom].
    destruct (calibrate_pose (odom (stop_odom w))) as (_ & Hc).
    rewrite Hc. unfold start_of, stop_odom.
    destruct (m_update_task (odom w)); reflexivity.
Qed.

(** ** More on the deadband filter *)

Lemma m_filter_values_cases (current_val last_val : R) :
  (Rabs (current_val - last_val) < 0.01 /\
   m_filter_values current_val last_val = 0) \/
  (~ Rabs (current_val - last_val) < 0.01 /\
   m_filter_values current_val last_val = current_val - last_val).
Proof.
  destruct (Rlt_dec (Rabs (current_val - last_val)) 0.01) as [L | N].
  - left. split; [ exact L | apply m_filter_values_below; exact L ].
  - right. split; [ exact N | apply m_filter_values_pass; exact N ].
Qed.

Lemma m_filter_values_error (current_val last_val : R) :
  Rabs (m_filter_values current_val last_val - (current_val - last_val)) < 0.01.
Proof.
  destruct (m_filter_values_cases current_val last_val) as [(L & ->) | (N & ->)].
  - replace (0 - (current_val - last_val)) with (- (current_val - last_val))
      by ring.
    rewrite Rabs_Ropp. exact L.
  - replace (current_val - last_val - (current_val - last_val)) with 0 by ring.
    rewrite Rabs_R0. lra.
Qed.

Lemma last_cons {A : Type} (a d : A) (xs : list A) :
  last (a :: xs) d = last xs a.
Proof.
  revert a d. induction xs as [ | x xs IH]; intros a d.
  - reflexivity.
  - change (last (a :: x :: xs) d) with (last (x :: xs) d).
    rewrite (IH x d). symmetry. apply IH.
Qed.

(** X1.  What the filter gives is either exactly zero or at least 0.01 in
    magnitude, is never larger in magnitude than the raw delta, and is less
    than 0.01 away from the raw delta. *)
Theorem filter_output_bounds (current_val last_val : R) :
  (m_filter_values current_val last_val = 0 \/
   0.01 <= Rabs (m_filter_values current_val last_val)) /\
  Rabs (m_filter_values current_val last_val) <= Rabs (current_val - last_val) /\
  Rabs (m_filter_values current_val last_val - (current_val - last_val)) < 0.01.
Proof.
  pose proof (m_filter_values_error current_val last_val) as Herr.
  destruct (m_filter_values_cases current_val last_val) as [(L & E) | (N & E)].
  - split; [ left; exact E | ].
    split; [ rewrite E, Rabs_R0; apply Rabs_pos | exact Herr ].
  - split; [ right; rewrite E; lra | ].
    split; [ rewrite E; lra | exact Herr ].
Qed.

(** X2.  The filter is odd: with the two readings swapped it gives the
    negative, so a step of the gyro and the step back are either both
    suppressed or both passed, with opposite values. *)
Theorem deadband_filter_is_odd (a b : R) :
  m_filter_values a b = - m_filter_values b a /\
  (m_filter_values a b = 0 <-> m_filter_values b a = 0).
Proof.
  assert (Hodd : m_filter_values a b = - m_filter_values b a).
  { destruct (m_filter_values_cases a b) as [(L & ->) | (N & ->)];
      rewrite Rabs_minus_sym in *.
    - rewrite (m_filter_values_below b a) by exact L. ring.
    - rewrite (m_filter_values_pass b a) by exact N. ring. }
  split; [ exact Hodd | ]. rewrite Hodd. split; intro H; lra.
Qed.

(** ** The filtered rotation total over a run *)

Lemma m_update_func_iters samples o :
  m_update_func samples o = m_update_iters samples (o, m_update_locals_init).
Proof. reflexivity. Qed.

(** X3.  A creeping rotation is invisible: over any number of iterations in
    which each rotation reading is less than 0.01 away from the one before,
    the filtered rotation total does not change, however far the readings
    creep in sum; the loop remembers the last reading all the same. *)
Theorem creeping_rotation_is_lost (samples : list h_Sensors) (o : c_Odometry)
    (l : m_update_locals) :
  creeping (m_last_rotation l) samples ->
  let l' := snd (m_update_iters samples (o, l)) in
  m_filtered_rotation l' = m_filtered_rotation l /\
  m_last_rotation l'
  = last (map imu_get_rotation samples) (m_last_rotation l).
Proof.
  revert o l. induction samples as [ | sens rest IH]; intros o l Hcreep.
  - split; reflexivity.
  - destruct Hcreep as (Hstep & Hrest).
    cbn [m_update_iters fold_left]. fold (m_update_iters rest (m_update_iter sens (o, l))).
    destruct (m_update_iter sens (o, l)) as [o1 l1] eqn:E1.
    assert (Hl1 : l1 = snd (m_update_iter sens (o, l))) by (rewrite E1; reflexivity).
    assert (Hlast1 : m_last_rotation l1 = imu_get_rotation sens).
    { rewrite Hl1. apply (iter_last sens o l). }
    assert (Hf1 : m_filtered_rotation l1 = m_filtered_rotation l).
    { rewrite Hl1, iter_filtered_rotation, m_filter_values_below by exact Hstep.
      apply Rplus_0_r. }
    rewrite <- Hlast1 in Hrest.
    destruct (IH o1 l1 Hrest) as (Hf & Hl). cbv zeta. split.
    + rewrite Hf. exact Hf1.
    + rewrite Hl, Hlast1. cbn [map]. symmetry. apply last_cons.
Qed.

(** X4.  After any number [n] of iterations, the difference between the
    raw rotation reading and the filtered rotation total has moved by at
    most [0.01 * n]: the filter loses less than 0.01 per iteration. *)
Theorem filtered_rotation_error_bound (samples : list h_Sensors)
    (o : c_Odometry) (l : m_update_locals) :
  let l' := snd (m_update_iters samples (o, l)) in
  Rabs ((m_last_rotation l' - m_filtered_rotation l')
        - (m_last_rotation l - m_filtered_rotation l))
  <= 0.01 * INR (length samples).
Proof.
  revert o l. induction samples as [ | sens rest IH]; intros o l.
  - cbn. replace (m_last_rotation l - m_filtered_rotation l
                  - (m_last_rotation l - m_filtered_rotation l)) with 0 by ring.
    rewrite Rabs_R0. lra.
  - cbn [m_update_iters fold_left]. fold (m_update_iters rest (m_update_iter sens (o, l))).
    destruct (m_update_iter sens (o, l)) as [o1 l1] eqn:E1.
    assert (Hl1 : l1 = snd (m_update_iter sens (o, l))) by (rewrite E1; reflexivity).
    assert (Hlast1 : m_last_rotation l1 = imu_get_rotation sens).
    { rewrite Hl1. apply (iter_last sens o l). }
    assert (Hf1 : m_filtered_rotation l1
                  = m_filtered_rotation l
                    + m_filter_values (imu_get_rotation sens) (m_last_rotation l)).
    { rewrite Hl1. apply iter_filtered_rotation. }
    pose proof (IH o1 l1) as Hrun. cbv zeta in Hrun |- *.
    pose proof (m_filter_values_error (imu_get_rotation sens) (m_last_rotation l))
      as Hone.
    change (length (sens :: rest)) with (S (length rest)). rewrite S_INR.
    set (e' := m_last_rotation (snd (m_update_iters rest (o1, l1)))
               - m_filtered_rotation (snd (m_update_iters rest (o1, l1)))) in *.
    replace (e' - (m_last_rotation l - m_filtered_rotation l))
      with ((e' - (m_last_rotation l1 - m_filtered_rotation l1))
            + - (m_filter_values (imu_get_rotation sens) (m_last_rotation l)
                 - (imu_get_rotation sens - m_last_rotation l)))
      by (rewrite Hlast1, Hf1; ring).
    eapply Rle_trans; [ apply Rabs_triang | ].
    rewrite Rabs_Ropp. lra.
Qed.

(** ** Driving without turning *)

(** A reading within the filter's band of the last one, from a heading that
    agrees with the rotation total: no heading delta. *)
Lemma iter_creep_step sens o l :
  get_angle o = u_deg_to_rad (m_filtered_rotation l) ->
  Rabs (imu_get_rotation sens - m_last_rotation l) < 0.01 ->
  u_deg_to_rad (m_filtered_rotation (snd (m_update_iter sens (o, l))))
  - m_global_angle o = 0.
Proof.
  unfold get_angle. intros Hsync Hstep.
  rewrite iter_filtered_rotation, m_filter_values_below by exact Hstep.
  rewrite Rplus_0_r, Hsync. ring.
Qed.

(** ** What does not reach the Pose *)

Lemma iter_level sens o l :
  fst (m_update_iter (level sens) (o, forget_attitude l))
  = fst (m_update_iter sens (o, l)) /\
  snd (m_update_iter (level sens) (o, forget_attitude l))
  = forget_attitude (snd (m_update_iter sens (o, l))).
Proof.
  unfold m_update_iter. cbv zeta.
  change (wheel_len (level sens)) with (wheel_len sens).
  cbn [level forget_attitude imu_get_rotation imu_get_pitch imu_get_roll
       tracking_wheels_get_side_radius tracking_wheels_get_middle_radius
       m_filtered_rotation m_last_rotation m_filtered_pitch m_last_pitch
       m_filtered_roll m_last_roll m_last_right m_last_middle
       m_radius_right m_radius_middle].
  destruct (to_bool _); cbn [fst snd forget_attitude
       m_current_rotation m_filtered_rotation m_last_rotation
       m_len_right m_len_middle m_delta_right m_delta_middle
       m_last_right m_last_middle m_delta_theta m_alpha
       m_radius_right m_radius_middle m_chord_right m_chord_middle
       m_polar_offset];
    rewrite !m_filter_values_same, !Rplus_0_r; split; reflexivity.
Qed.

(** X9.  Pitch and roll never reach the Pose: after any number of
    iterations the object is what it would be had the IMU read pitch 0 and
    roll 0 throughout, with the pitch and roll variables of the loop at
    zero. *)
Theorem attitude_never_reaches_pose (samples : list h_Sensors)
    (o : c_Odometry) (l : m_update_locals) :
  fst (m_update_iters (map level samples) (o, forget_attitude l))
  = fst (m_update_iters samples (o, l)).
Proof.
  revert o l. induction samples as [ | sens rest IH]; intros o l.
  - reflexivity.
  - cbn [map m_update_iters fold_left].
    fold (m_update_iters (map level rest)
            (m_update_iter (level sens) (o, forget_attitude l))).
    fold (m_update_iters rest (m_update_iter sens (o, l))).
    destruct (iter_level sens o l) as (Ho & Hl).
    destruct (m_update_iter (level sens) (o, forget_attitude l)) as [o1 l1].
    destruct (m_update_iter sens (o, l)) as [o2 l2].
    cbn [fst snd] in Ho, Hl. subst o1 l1. apply IH.
Qed.

(** ** The display *)

(** X10.  The fourth display line never shows anything but zero, and the
    third line repeats the first: by the time the loop body prints, every
    [m_last_*] angle has been overwritten with the current reading. *)
Theorem lcd_last_line_is_zero (sens : h_Sensors) (o : c_Odometry)
    (l : m_update_locals) :
  let lines := lcd_lines (snd (m_update_iter sens (o, l))) in
  nth 3 lines [] = [0] /\
  nth 2 lines [] = nth 0 lines [] /\
  nth 0 lines [] = [imu_get_rotation sens; imu_get_pitch sens; imu_get_roll sens].
Proof.
  unfold lcd_lines.
  iter_branches Hb; cbn [nth]; rewrite m_filter_values_same;
    repeat split; reflexivity.
Qed.

(** ** The task table *)

Lemma set_task_length t v ts : length (set_task t v ts) = length ts.
Proof.
  revert t. induction ts as [ | e ts IH]; intros [ | t]; cbn [set_task length].
  - reflexivity.
  - reflexivity.
  - reflexivity.
  - rewrite IH. reflexivity.
Qed.

Lemma nth_error_set_task_same t v ts x :
  nth_error (set_task t v ts) t = Some x -> x = v.
Proof.
  revert t. induction ts as [ | e ts IH]; intros [ | t]; cbn [set_task nth_error];
    intro H; try discriminate H.
  - injection H as H. symmetry. exact H.
  - apply (IH t). exact H.
Qed.

Lemma nth_error_set_task_other t t' v ts :
  t <> t' -> nth_error (set_task t v ts) t' = nth_error ts t'.
Proof.
  revert t t'. induction ts as [ | e ts IH]; intros [ | t] [ | t'] Hne;
    cbn [set_task nth_error]; try reflexivity.
  - contradiction.
  - apply IH. intro E. apply Hne. rewrite E. reflexivity.
Qed.

Lemma nth_error_snoc_alive {A : Type} (ts : list A) (x y : A) (t : nat) :
  nth_error (ts ++ [x]) t = Some y ->
  nth_error ts t = Some y \/ (t = length ts /\ y = x).
Proof.
  intro H. destruct (Nat.lt_ge_cases t (length ts)) as [Hlt | Hge].
  - left. rewrite nth_error_app1 in H by exact Hlt. exact H.
  - right. rewrite nth_error_app2 in H by exact Hge.
    destruct (t - length ts)%nat as [ | k] eqn:Ek.
    + cbn in H. injection H as H. split; [ | symmetry; exact H ].
      apply Nat.le_antisymm; [ | exact Hge ].
      apply Nat.sub_0_le. exact Ek.
    + cbn in H. destruct k; discriminate H.
Qed.

(** With no live task a [Tick] does nothing. *)
Lemma step_tick_dead t sens w :
  (forall l, nth_error (tasks w) t <> Some (Some l)) ->
  step (Tick t sens) w = w.
Proof.
  intro Hdead. cbn [step].
  destruct (nth_error (tasks w) t) as [[l | ] | ] eqn:E; try reflexivity.
  exfalso. apply (Hdead l). reflexivity.
Qed.

Lemma stop_odom_no_live_task w :
  only_pointed w ->
  forall t l, nth_error (tasks (stop_odom w)) t <> Some (Some l).
Proof.
  intros Honly t l. unfold stop_odom.
  destruct (m_update_task (odom w)) as [p | ] eqn:Ep; cbn [tasks].
  - destruct (Nat.eq_dec p t) as [-> | Hne].
    + intro H. apply nth_error_set_task_same in H. discriminate H.
    + rewrite nth_error_set_task_other by exact Hne.
      intro H. apply Honly in H. rewrite Ep in H.
      injection H as H. contradiction.
  - intro H. apply Honly in H. rewrite Ep in H. discriminate H.
Qed.

Lemma disciplined_run (es : list event) (running : bool) (w : world) :
  disciplined running w -> no_double_start running es ->
  only_pointed (run es w).
Proof.
  revert running w. induction es as [ | e es IH]; intros running w (Honly & Hptr) Hes.
  - exact Honly.
  - cbn [run fold_left]. fold (run es (step e w)).
    destruct e as [ | | | t sens]; cbn [no_double_start] in Hes.
    + apply (IH running); [ | exact Hes ]. split.
      * intros t l H. apply (Honly t l H).
      * exact Hptr.
    + destruct Hes as (Hoff & Hes). apply (IH true); [ | exact Hes ]. split.
      * intros t l H. cbn [step start_odom tasks odom with_task m_update_task] in *.
        apply nth_error_snoc_alive in H. destruct H as [H | (-> & _)].
        -- apply Honly in H. rewrite (Hptr Hoff) in H. discriminate H.
        -- reflexivity.
      * intro H. discriminate H.
    + apply (IH false); [ | exact Hes ]. split.
      * intros t l H. exfalso.
        apply (stop_odom_no_live_task w Honly t l). exact H.
      * intros _. cbn [step]. unfold stop_odom.
        destruct (m_update_task (odom w)) eqn:Ep; [ reflexivity | exact Ep ].
    + apply (IH running); [ | exact Hes ].
      destruct (nth_error (tasks w) t) as [[l | ] | ] eqn:Ht.
      * rewrite (step_tick t sens w l Ht).
        destruct (iter_frame sens (odom w) l) as (_ & _ & Htask).
        pose proof (Honly t l Ht) as Hp. split.
        -- intros t' l' H. cbn [tasks odom] in *. rewrite Htask.
           destruct (Nat.eq_dec t t') as [<- | Hne]; [ exact Hp | ].
           rewrite nth_error_set_task_other in H by exact Hne.
           apply (Honly t' l' H).
        -- intro Hoff. rewrite (Hptr Hoff) in Hp. discriminate Hp.
      * rewrite step_tick_dead; [ split; assumption | ].
        intros l H. rewrite Ht in H. discriminate H.
      * rewrite step_tick_dead; [ split; assumption | ].
        intros l H. rewrite Ht in H. discriminate H.
Qed.

(** X11.  When [start_odom] is never called while a task is running,
    [stop_odom] really stops the loop: in the state it leaves, no [Tick] of
    any task changes anything, so the Pose is written no more. *)
Theorem stop_odom_silences_loop (starting_coords : c_Robot_Starting_Positions)
    (side : c_Robot_Starting_Pos_Side) (d : header_defaults)
    (es : list event) :
  no_double_start false es ->
  let w := step Stop_odom (run es (boot starting_coords side d)) in
  m_update_task (odom w) = None /\
  forall (t : nat) (sens : h_Sensors), step (Tick t sens) w = w.
Proof.
  intros Hes w.
  assert (Honly : only_pointed (run es (boot starting_coords side d))).
  { apply (disciplined_run es false); [ | exact Hes ]. split.
    - intros t l H. destruct t; discriminate H.
    - intros _. destruct side; reflexivity. }
  split.
  - subst w. cbn [step]. unfold stop_odom.
    destruct (m_update_task (odom (run es (boot starting_coords side d)))) eqn:Ep;
      [ reflexivity | exact Ep ].
  - intros t sens. apply step_tick_dead.
    apply (stop_odom_no_live_task _ Honly).
Qed.

(** X12.  A second [start_odom] leaks the first task: after two starts and
    one stop the task pointer is null, yet the task of the first start is
    still alive at the entry of its loop, and an iteration of it still
    writes the Pose. *)
Theorem second_start_leaks_first_task (w : world) :
  let t1 := length (tasks w) in
  let w' := run [Start_odom; Start_odom; Stop_odom] w in
  m_update_task (odom w') = None /\
  nth_error (tasks w') t1 = Some (Some m_update_locals_init) /\
  ~ only_pointed w' /\
  forall sens : h_Sensors,
    pose (odom (step (Tick t1 sens) w'))
    = pose (fst (m_update_iter sens (odom w, m_update_locals_init))).
Proof.
  intros t1 w'.
  assert (Hptr : m_update_task (odom w') = None) by reflexivity.
  assert (Hlive : nth_error (tasks w') t1 = Some (Some m_update_locals_init)).
  { subst w' t1. cbn [run fold_left step start_odom stop_odom odom tasks
      with_task m_update_task].
    rewrite length_app. cbn [length].
    rewrite nth_error_set_task_other by (apply Nat.neq_sym, Nat.lt_neq; lia).
    rewrite nth_error_app1 by (rewrite length_app; cbn [length]; lia).
    rewrite nth_error_app2 by apply Nat.le_refl.
    rewrite Nat.sub_diag. reflexivity. }
  split; [ exact Hptr | ]. split; [ exact Hlive | ]. split.
  - intro Honly. apply Honly in Hlive. rewrite Hptr in Hlive. discriminate Hlive.
  - intro sens. rewrite (step_tick t1 sens w' _ Hlive). cbn [odom].
    apply iter_reads_pose. reflexivity.
Qed.

(** An iteration from the entry of the loop, repeated from the entry of the
    loop with the same readings: the heading stays, and both wheels' whole
    cumulative travel is added once more. *)
Lemma iter_again_from_entry sens o :
  let o1 := fst (m_update_iter sens (o, m_update_locals_init)) in
  let o2 := fst (m_update_iter sens (o1, m_update_locals_init)) in
  get_angle o2 = get_angle o1 /\
  get_x o2
  = get_x o1 + wheel_len sens RIGHT * sin (get_angle o1)
    + wheel_len sens MIDDLE * cos (get_angle o1) /\
  get_y o2
  = get_y o1 + wheel_len sens RIGHT * cos (get_angle o1)
    + wheel_len sens MIDDLE * - sin (get_angle o1).
Proof.
  intros o1 o2.
  assert (Hzero :
    u_deg_to_rad (m_filtered_rotation
      (snd (m_update_iter sens (o1, m_update_locals_init))))
    - m_global_angle o1 = 0).
  { unfold o1. rewrite iter_heading, !iter_filtered_rotation. ring. }
  destruct (iter_straight_pose sens o1 m_update_locals_init Hzero)
    as (Hx & Hy & Ha).
  fold o2 in Hx, Hy, Ha. unfold get_angle, get_x, get_y.
  rewrite Hx, Hy, Ha. cbn [m_last_right m_last_middle m_update_locals_init].
  rewrite !Rminus_0_r. repeat split; reflexivity.
Qed.

(** X13.  Stopping and restarting the loop counts the wheel travel again.
    From heading 0 (so that the first iteration leaves the converted
    rotation total itself as the heading) a task is started and runs one
    iteration; the loop is stopped and started again, and the new task runs
    one iteration with the very same sensor readings.  The robot has not
    moved, the heading stays, but the Pose is moved by the whole cumulative
    travel of both wheels. *)
Theorem restart_counts_travel_again (w : world) (sens : h_Sensors) :
  get_angle (odom w) = 0 ->
  let t1 := length (tasks w) in
  let w2 := run [Start_odom; Tick t1 sens] w in
  let w5 := run [Stop_odom; Start_odom; Tick (S t1) sens] w2 in
  get_angle (odom w5) = get_angle (odom w2) /\
  get_x (odom w5)
  = get_x (odom w2) + wheel_len sens RIGHT * sin (get_angle (odom w2))
    + wheel_len sens MIDDLE * cos (get_angle (odom w2)) /\
  get_y (odom w5)
  = get_y (odom w2) + wheel_len sens RIGHT * cos (get_angle (odom w2))
    + wheel_len sens MIDDLE * - sin (get_angle (odom w2)).
Proof.
  intros _ t1 w2 w5.
  set (w1 := step Start_odom w).
  destruct (start_odom_task w) as (_ & Hl1). fold t1 in Hl1.
  assert (Hw2 : w2 = {| odom := fst (m_update_iter sens (odom w1, m_update_locals_init));
                        tasks := set_task t1
                          (Some (snd (m_update_iter sens (odom w1, m_update_locals_init))))
                          (tasks w1) |}).
  { subst w2. cbn [run fold_left]. fold w1.
    apply (step_tick t1 sens w1 m_update_locals_init). exact Hl1. }
  set (w3 := step Stop_odom w2).
  assert (Hlen3 : length (tasks w3) = S t1).
  { subst w3. cbn [step]. unfold stop_odom.
    destruct (m_update_task (odom w2)); cbn [tasks];
      rewrite ?set_task_length, Hw2; cbn [tasks]; rewrite set_task_length;
      subst w1; cbn [step start_odom tasks]; rewrite length_app; cbn [length];
      subst t1; lia. }
  destruct (start_odom_task w3) as (_ & Hl4). rewrite Hlen3 in Hl4.
  assert (Hw5 : odom w5
                = fst (m_update_iter sens (odom (start_odom w3), m_update_locals_init))).
  { subst w5. cbn [run fold_left]. fold w3.
    change (step Start_odom w3) with (start_odom w3).
    rewrite (step_tick (S t1) sens (start_odom w3) m_update_locals_init Hl4).
    reflexivity. }
  assert (Hpose : pose (odom (start_odom w3)) = pose (odom w2)).
  { rewrite start_odom_pose. apply stop_odom_pose. }
  destruct (iter_reads_pose sens _ _ m_update_locals_init Hpose) as (Hsame & _).
  rewrite <- Hw5 in Hsame.
  assert (Hagain : pose (odom w5)
    = pose (fst (m_update_iter sens
             (fst (m_update_iter sens (odom w1, m_update_locals_init)),
              m_update_locals_init)))).
  { rewrite Hsame, Hw2. reflexivity. }
  destruct (iter_again_from_entry sens (odom w1)) as (Ha & Hx & Hy).
  assert (Ho2 : odom w2 = fst (m_update_iter sens (odom w1, m_update_locals_init)))
    by (rewrite Hw2; reflexivity).
  rewrite <- Ho2 in Ha, Hx, Hy.
  unfold pose in Hagain. injection Hagain as Hgx Hgy Hga.
  rewrite Hga, Hgx, Hgy, Ho2.
  rewrite Ho2 in Ha, Hx, Hy.
  split; [ exact Ha | ]. split; [ exact Hx | exact Hy ].
Qed.

(** ** What a reader can see *)


(** The five assignments end in the object the iteration leaves. *)
Lemma m_update_writes_last sens o l :
  last (m_update_writes sens (o, l)) o = fst (m_update_iter sens (o, l)).
Proof.
  unfold m_update_writes. cbn [last].
  unfold with_pose. iter_branches Hb; reflexivity.
Qed.


(** ** A creeping gyro and the heading *)

Lemma iter_delta_theta sens o l :
  m_delta_theta (snd (m_update_iter sens (o, l)))
  = u_deg_to_rad (m_filtered_rotation (snd (m_update_iter sens (o, l))))
    - m_global_angle o.
Proof. iter_branches Hb; reflexivity. Qed.

(** What the straight-line branch leaves in the locals. *)
Lemma iter_straight_locals sens o l :
  let l' := snd (m_update_iter sens (o, l)) in
  u_deg_to_rad (m_filtered_rotation l') - m_global_angle o = 0 ->
  m_delta_theta l' = 0 /\ straight_line l'.
Proof.
  intro l'. subst l'. unfold straight_line.
  iter_branches Hb; intro Hzero.
  - apply to_bool_true_iff in Hb. contradiction.
  - repeat split; try reflexivity. exact Hzero.
Qed.

(** X8.  A creeping gyro never turns the Pose: when the heading is the
    conversion of the rotation total and every rotation reading is less
    than 0.01 from the one before, then after any number of iterations the
    heading is what it was, and the last iteration (so every one of them)
    had a zero heading delta and stored the straight-line results. *)
Theorem creeping_run_keeps_heading (samples : list h_Sensors) (o : c_Odometry)
    (l : m_update_locals) :
  get_angle o = u_deg_to_rad (m_filtered_rotation l) ->
  creeping (m_last_rotation l) samples ->
  let st' := m_update_iters samples (o, l) in
  get_angle (fst st') = get_angle o /\
  (samples <> [] -> m_delta_theta (snd st') = 0 /\ straight_line (snd st')).
Proof.
  revert o l. induction samples as [ | sens rest IH]; intros o l Hsync Hcreep.
  - split; [ reflexivity | intro H; contradiction ].
  - destruct Hcreep as (Hstep & Hrest).
    cbn [m_update_iters fold_left].
    fold (m_update_iters rest (m_update_iter sens (o, l))).
    pose proof (iter_creep_step sens o l Hsync Hstep) as Hzero.
    destruct (iter_straight_pose sens o l Hzero) as (_ & _ & Ha1).
    destruct (iter_straight_locals sens o l Hzero) as (Hd1 & Hs1).
    destruct (iter_last sens o l) as (Hlast1 & _).
    assert (Hf1 : m_filtered_rotation (snd (m_update_iter sens (o, l)))
                  = m_filtered_rotation l).
    { rewrite iter_filtered_rotation, m_filter_values_below by exact Hstep.
      apply Rplus_0_r. }
    destruct (m_update_iter sens (o, l)) as [o1 l1].
    cbn [fst snd] in *.
    assert (Hsync1 : get_angle o1 = u_deg_to_rad (m_filtered_rotation l1)).
    { unfold get_angle in *. rewrite Ha1, Hf1. exact Hsync. }
    rewrite <- Hlast1 in Hrest.
    destruct (IH o1 l1 Hsync1 Hrest) as (Ha & Hlastiter).
    cbv zeta. split.
    + rewrite Ha. unfold get_angle. exact Ha1.
    + intros _. destruct rest as [ | s2 rest2].
      * cbn [m_update_iters fold_left snd]. split; assumption.
      * apply Hlastiter. discriminate.
Qed.


End Update.

(** ** The ball macros *)

Section MacrosFacts.

Local Open Scope Z_scope.

Variable k : k_Macros.

Lemma score_step_done ball rest :
  score_done k ball = true ->
  score k (ball :: rest) = ([delay 100; conveyor_set_vel []], Some rest).
Proof.
  unfold score_done. intro H. cbn [score].
  destruct ((signature ball =? RED_ID k) && (width ball >? 200)).
  - reflexivity.
  - cbn [orb] in H. rewrite H. reflexivity.
Qed.

Lemma score_step_on ball rest :
  score_done k ball = false ->
  score k (ball :: rest)
  = (conveyor_set_vel [600] :: delay (h_max_readtime k) :: fst (score k rest),
     snd (score k rest)).
Proof.
  unfold score_done. intro H. apply orb_false_iff in H. destruct H as (H1 & H2).
  cbn [score]. rewrite H1, H2.
  destruct (score k rest) as [calls left]. reflexivity.
Qed.

(** X14.  [score] returns exactly when the sensor comes to show a red
    object wider than 200 or no object at all; while it shows anything
    else, an object of another colour included, [score] stays in its
    loop. *)
Theorem score_returns_iff (seen : list vision_object_s_t) :
  (exists rest, snd (score k seen) = Some rest)
  <-> existsb (score_done k) seen = true.
Proof.
  induction seen as [ | ball seen IH].
  - split.
    + intros (rest & H). discriminate H.
    + intro H. discriminate H.
  - cbn [existsb]. destruct (score_done k ball) eqn:Hd.
    + rewrite score_step_done by exact Hd. split.
      * reflexivity.
      * intros _. exists seen. reflexivity.
    + rewrite score_step_on by exact Hd. exact IH.
Qed.

(** X15.  [score] runs the conveyor at 600 once for every object it sees
    before the first one it stops on, then waits 0.1 s and releases the
    conveyor; it consumes the objects up to that one and no more, and never
    calls the intake. *)
Theorem score_runs_to_first_done (pre : list vision_object_s_t)
    (ball : vision_object_s_t) (rest : list vision_object_s_t) :
  existsb (score_done k) pre = false ->
  score_done k ball = true ->
  score k (pre ++ ball :: rest)
  = (flat_map (fun _ => [conveyor_set_vel [600]; delay (h_max_readtime k)]) pre
       ++ [delay 100; conveyor_set_vel []],
     Some rest) /\
  final_conveyor (fst (score k (pre ++ ball :: rest))) = Some [] /\
  final_intake (fst (score k (pre ++ ball :: rest))) = None.
Proof.
  intros Hpre Hball.
  assert (Hrun : score k (pre ++ ball :: rest)
    = (flat_map (fun _ => [conveyor_set_vel [600]; delay (h_max_readtime k)]) pre
         ++ [delay 100; conveyor_set_vel []],
       Some rest)).
  { induction pre as [ | b pre IH].
    - apply score_step_done. exact Hball.
    - cbn [existsb] in Hpre. apply orb_false_iff in Hpre.
      destruct Hpre as (Hb & Hpre).
      cbn [app]. rewrite score_step_on by exact Hb.
      rewrite (IH Hpre). reflexivity. }
  split; [ exact Hrun | ]. rewrite Hrun. cbn [fst].
  clear Hrun Hpre. unfold final_conveyor, final_intake.
  rewrite !fold_left_app. cbn [fold_left]. split; [ reflexivity | ].
  induction pre as [ | b pre IH]; [ reflexivity | exact IH ].
Qed.

Lemma fold_final {A : Type} (f : option A -> call -> option A)
    (Hf : forall acc c, f acc c = acc \/ exists x, forall acc', f acc' c = Some x)
    (b : list call) (acc : option A) :
  fold_left f b acc
  = match fold_left f b None with Some x => Some x | None => acc end.
Proof.
  revert acc. induction b as [ | c b IH]; intro acc.
  - reflexivity.
  - cbn [fold_left]. destruct (Hf acc c) as [Hkeep | (x & Hset)].
    + destruct (Hf None c) as [Hkeep' | (x & Hset)].
      * rewrite Hkeep, Hkeep'. apply IH.
      * rewrite !Hset, (IH (Some x)).
        destruct (fold_left f b None); reflexivity.
    + rewrite !Hset, (IH (Some x)).
      destruct (fold_left f b None); reflexivity.
Qed.

Lemma final_conveyor_app (a b : list call) :
  final_conveyor (a ++ b)
  = match final_conveyor b with Some x => Some x | None => final_conveyor a end.
Proof.
  unfold final_conveyor. rewrite fold_left_app. apply fold_final.
  intros acc [args | args | ms]; [ right; exists args; reflexivity | left .. ];
    reflexivity.
Qed.

Lemma final_intake_app (a b : list call) :
  final_intake (a ++ b)
  = match final_intake b with Some x => Some x | None => final_intake a end.
Proof.
  unfold final_intake. rewrite fold_left_app. apply fold_final.
  intros acc [args | args | ms]; [ left | right; exists args | left ];
    reflexivity.
Qed.

Lemma descore_loop_1_exit seen calls e rest :
  descore_loop_1 k seen = (calls, Some (e, rest)) ->
  final_intake calls = Some [] /\
  (e = Return -> final_conveyor calls = Some []).
Proof.
  revert calls. induction seen as [ | ball seen IH]; intros calls H.
  - discriminate H.
  - cbn [descore_loop_1] in H.
    destruct ((signature ball =? RED_ID k) && (width ball >? 50)).
    + injection H as <- <- <-. split; [ reflexivity | discriminate ].
    + destruct (signature ball =? NULL_ID k).
      * injection H as <- <- <-. split; reflexivity.
      * destruct (descore_loop_1 k seen) as [calls' left].
        injection H as <- ->.
        destruct (IH calls' eq_refl) as (Hi & Hc).
        change (?a :: ?b :: ?c :: calls') with ([a; b; c] ++ calls').
        rewrite final_intake_app, final_conveyor_app, Hi. split.
        -- reflexivity.
        -- intro He. rewrite (Hc He). reflexivity.
Qed.

Lemma descore_loop_2_exit seen calls rest :
  descore_loop_2 k seen = (calls, Some rest) ->
  final_conveyor calls = Some [] /\ final_intake calls = None.
Proof.
  revert calls. induction seen as [ | ball seen IH]; intros calls H.
  - discriminate H.
  - cbn [descore_loop_2] in H. destruct (width ball >? 200).
    + injection H as <- <-. split; reflexivity.
    + destruct (descore_loop_2 k seen) as [calls' left].
      injection H as <- ->.
      destruct (IH calls' eq_refl) as (Hc & Hi).
      change (?a :: ?b :: calls') with ([a; b] ++ calls').
      rewrite final_intake_app, final_conveyor_app, Hi, Hc.
      split; reflexivity.
Qed.

(** X16.  Whenever [descore] returns, on either of its two ways out, the
    last call it made on the conveyor and the last call it made on the
    intake are [set_vel()] without argument: both motors are released. *)
Theorem descore_releases_motors (seen rest : list vision_object_s_t) :
  snd (descore k seen) = Some rest ->
  final_conveyor (fst (descore k seen)) = Some [] /\
  final_intake (fst (descore k seen)) = Some [].
Proof.
  unfold descore. cbv zeta.
  destruct (descore_loop_1 k seen) as [calls_1 [[[ | ] left] | ]] eqn:E1.
  - destruct (descore_loop_1_exit seen calls_1 Break left E1) as (Hi & _).
    destruct (descore_loop_2 k left) as [calls_2 left'] eqn:E2.
    cbn [fst snd]. intro H. subst left'.
    destruct (descore_loop_2_exit left calls_2 rest E2) as (Hc2 & Hi2).
    rewrite !final_conveyor_app, !final_intake_app, Hc2, Hi2, Hi.
    split; reflexivity.
  - destruct (descore_loop_1_exit seen calls_1 Return left E1) as (Hi & Hc).
    cbn [fst snd]. intros _.
    rewrite final_conveyor_app, final_intake_app, Hi, (Hc eq_refl).
    split; reflexivity.
  - cbn [snd]. intro H. discriminate H.
Qed.

Lemma descore_loop_1_reverse seen args :
  In (conveyor_set_vel (-600 :: args)) (fst (descore_loop_1 k seen)) ->
  exists ball, In ball seen /\ 50 < width ball /\
               signature ball <> RED_ID k /\ signature ball <> NULL_ID k.
Proof.
  induction seen as [ | ball seen IH]; intro H.
  - destruct H.
  - cbn [descore_loop_1] in H.
    destruct (signature ball =? RED_ID k) eqn:Hred;
      destruct (width ball >? 50) eqn:Hwide; cbn [andb] in H.
    + destruct H as [H | []]. discriminate H.
    + destruct (signature ball =? NULL_ID k).
      * destruct H as [H | [H | []]]; [ injection H as H | ]; discriminate H.
      * destruct (descore_loop_1 k seen) as [calls left]. cbn [fst] in *.
        destruct H as [H | [H | [H | H]]]; try discriminate H.
        destruct (IH H) as (b & Hb & Hrest). exists b. split; [ right | ]; assumption.
    + destruct (signature ball =? NULL_ID k) eqn:Hnull.
      * destruct H as [H | [H | []]]; [ injection H as H | ]; discriminate H.
      * destruct (descore_loop_1 k seen) as [calls left]. cbn [fst] in *.
        destruct H as [H | [H | [H | H]]]; try discriminate H.
        -- exists ball. split; [ left; reflexivity | ].
           apply Z.gtb_lt in Hwide. apply Z.eqb_neq in Hred, Hnull.
           repeat split; assumption.
        -- destruct (IH H) as (b & Hb & Hrest). exists b.
           split; [ right | ]; assumption.
    + destruct (signature ball =? NULL_ID k).
      * destruct H as [H | [H | []]]; [ injection H as H | ]; discriminate H.
      * destruct (descore_loop_1 k seen) as [calls left]. cbn [fst] in *.
        destruct H as [H | [H | [H | H]]]; try discriminate H.
        destruct (IH H) as (b & Hb & Hrest). exists b. split; [ right | ]; assumption.
Qed.

Lemma descore_loop_2_forward seen args :
  ~ In (conveyor_set_vel (-600 :: args)) (fst (descore_loop_2 k seen)).
Proof.
  induction seen as [ | ball seen IH]; intro H.
  - destruct H.
  - cbn [descore_loop_2] in H. destruct (width ball >? 200).
    + destruct H as [H | [H | []]]; discriminate H.
    + destruct (descore_loop_2 k seen) as [calls left]. cbn [fst] in *.
      destruct H as [H | [H | H]]; try discriminate H. exact (IH H).
Qed.

(** X17.  [descore] runs the conveyor backwards only on seeing an object
    wider than 50 that is neither red nor the null object: a call
    [set_vel(-600, ...)] in its trace has such an object among the objects
    seen. *)
Theorem descore_reverses_only_for_other_colour
    (seen : list vision_object_s_t) (args : list Z) :
  In (conveyor_set_vel (-600 :: args)) (fst (descore k seen)) ->
  exists ball, In ball seen /\ 50 < width ball /\
               signature ball <> RED_ID k /\ signature ball <> NULL_ID k.
Proof.
  unfold descore. cbv zeta. intro H.
  assert (Hhead : forall tail,
    In (conveyor_set_vel (-600 :: args))
       ([conveyor_set_vel [600]; intake_set_vel [600]; delay 750] ++ tail) ->
    In (conveyor_set_vel (-600 :: args)) tail).
  { intros tail [Hin | [Hin | [Hin | Hin]]]; try discriminate Hin. exact Hin. }
  apply (descore_loop_1_reverse seen args).
  destruct (descore_loop_1 k seen) as [calls_1 [[[ | ] left] | ]]; cbn [fst] in *.
  - destruct (descore_loop_2 k left) as [calls_2 left'] eqn:E2. cbn [fst] in H.
    apply Hhead in H. apply in_app_or in H. destruct H as [H | H].
    + exact H.
    + exfalso. apply (descore_loop_2_forward left args).
      rewrite E2. exact H.
  - apply Hhead. exact H.
  - apply Hhead. exact H.
Qed.

(** One round of the inner loop of [intake_until_in]: it ends on the first
    object wider than 40 and leaves the objects after it. *)
Lemma intake_until_in_loop_round seen :
  match snd (intake_until_in_loop k seen) with
  | Some rest => taken_in seen = S (taken_in rest)
  | None => taken_in seen = 0%nat
  end /\
  (forall rest, snd (intake_until_in_loop k seen) = Some rest ->
     final_conveyor (fst (intake_until_in_loop k seen)) = Some [] /\
     final_intake (fst (intake_until_in_loop k seen)) = Some []).
Proof.
  unfold taken_in.
  induction seen as [ | ball seen (IHn & IHf)].
  - split; [ reflexivity | intros rest H; discriminate H ].
  - cbn [intake_until_in_loop filter]. destruct (width ball >? 40).
    + split; [ reflexivity | intros rest _; split; reflexivity ].
    + destruct (intake_until_in_loop k seen) as [calls left]. cbn [fst snd] in *.
      split; [ exact IHn | ].
      intros rest H. destruct (IHf rest H) as (Hc & Hi).
      change (?a :: ?b :: ?c :: calls) with ([a; b; c] ++ calls).
      rewrite final_conveyor_app, final_intake_app, Hc, Hi.
      split; reflexivity.
Qed.

(** X18.  The inner loop of [intake_until_in] stops on the first object
    wider than 40 (not 50): it runs both motors at 600 once for every
    object before that one, then releases both. *)
Theorem intake_stops_above_40 (pre : list vision_object_s_t)
    (ball : vision_object_s_t) (rest : list vision_object_s_t) :
  Forall (fun b => width b <= 40) pre ->
  40 < width ball ->
  intake_until_in_loop k (pre ++ ball :: rest)
  = (flat_map (fun _ => [conveyor_set_vel [600]; intake_set_vel [600];
                         delay (h_max_readtime k)]) pre
       ++ [conveyor_set_vel []; intake_set_vel []],
     Some rest).
Proof.
  intros Hpre Hball. induction Hpre as [ | b pre Hb _ IH].
  - cbn [app intake_until_in_loop flat_map].
    apply Z.gtb_lt in Hball. rewrite Hball. reflexivity.
  - cbn [app intake_until_in_loop flat_map].
    assert (Hnot : (width b >? 40) = false).
    { destruct (width b >? 40) eqn:E; [ | reflexivity ].
      apply Z.gtb_lt in E. lia. }
    rewrite Hnot, IH. reflexivity.
Qed.

(** X19.  One ball per notification: when [notify_take] returns nonzero
    [n] times and then zero, [intake_until_in] returns exactly when the
    sensor shows at least [n] objects wider than 40; with fewer it stays
    in its inner loop. *)
Theorem intake_until_in_returns_iff (notified : list Z) (later : list Z)
    (seen : list vision_object_s_t) :
  Forall (fun n => n <> 0) notified ->
  (exists rest, snd (intake_until_in k (notified ++ 0 :: later) seen) = Some rest)
  <-> (length notified <= taken_in seen)%nat.
Proof.
  intro Hnz. revert seen. induction Hnz as [ | n notified Hn _ IH]; intro seen.
  - cbn [app intake_until_in length]. change (0 =? 0) with true. cbn [snd].
    split; [ intros _; lia | intros _; exists seen; reflexivity ].
  - cbn [app intake_until_in length].
    apply Z.eqb_neq in Hn. rewrite Hn.
    destruct (intake_until_in_loop_round seen) as (Hround & _).
    destruct (intake_until_in_loop k seen) as [calls [rest | ]]; cbn [snd] in Hround.
    + specialize (IH rest).
      destruct (intake_until_in k (notified ++ 0 :: later) rest) as [calls' left].
      cbn [snd] in *. rewrite Hround, IH. lia.
    + cbn [snd]. rewrite Hround. split.
      * intros (rest & H). discriminate H.
      * intro H. lia.
Qed.

End MacrosFacts.

(** ** The heading in binary64 *)

Section HeadingBinary64.

Local Open Scope float_scope.

#[local] Set Warnings "-inexact-float".







End HeadingBinary64.

(** ** The statements at concrete inputs *)

(** Decide a comparison of the absolute value of a numeral. *)
Ltac rabs_lra := unfold Rabs; destruct (Rcase_abs _); lra.

Lemma deg_to_rad_0 : deg_to_rad 0 = 0.
Proof. unfold deg_to_rad. lra. Qed.

Lemma filter_quarter_turn : m_filter_values 90 0 = 90.
Proof. rewrite m_filter_values_pass; [ lra | rabs_lra ]. Qed.

Lemma wheel_len_one_inch (rot pitch roll other : R) :
  wheel_len (reading rot pitch roll one_inch other) RIGHT = 1 /\
  wheel_len (reading rot pitch roll other one_inch) MIDDLE = 1.
Proof.
  unfold wheel_len, one_inch. cbn. pose proof PI_RGT_0.
  split; field; lra.
Qed.

Lemma wheel_len_zero (rot pitch roll other : R) :
  wheel_len (reading rot pitch roll 0 other) RIGHT = 0 /\
  wheel_len (reading rot pitch roll other 0) MIDDLE = 0.
Proof. unfold wheel_len. cbn. split; field. Qed.

(** The robot at heading 0 turns by 90 degrees on the spot: the arc branch
    runs with [alpha = PI / 4], the right wheel's radius is its offset, and
    the heading becomes [PI / 2]. *)
Lemma arc_branch_integration_witness :
  let sens := reading 90 0 0 0 0 in
  let o := calibrate (new_c_Odometry sample_starts BLUE zero_defaults) in
  let st' := m_update_iter deg_to_rad sens (o, m_update_locals_init) in
  deg_to_rad (m_filtered_rotation (snd st')) - m_global_angle o <> 0 /\
  m_alpha (snd st') = PI / 4 /\
  m_radius_right (snd st') = 5 /\
  get_angle (fst st') = PI / 2.
Proof.
  intros sens o st'.
  assert (Hf : m_filtered_rotation (snd st') = 90).
  { subst st'. rewrite iter_filtered_rotation.
    cbn [m_filtered_rotation m_last_rotation m_update_locals_init
         imu_get_rotation sens reading].
    rewrite filter_quarter_turn. lra. }
  assert (Ha : m_global_angle o = 0).
  { subst o. cbn. lra. }
  assert (Hturn :
    deg_to_rad (m_filtered_rotation (snd st')) - m_global_angle o <> 0).
  { rewrite Hf, Ha. unfold deg_to_rad. pose proof PI_RGT_0. lra. }
  split; [ exact Hturn | ].
  destruct (arc_branch_integration deg_to_rad sens o m_update_locals_init Hturn)
    as (_ & Hal & Hdr & _ & Hrr & _ & _ & _ & _ & _ & _ & Hang).
  fold st' in Hal, Hdr, Hrr, Hang.
  rewrite Hal, Hrr, Hdr, Hang, Hf. unfold get_angle. rewrite Ha.
  unfold deg_to_rad, sens. rewrite (proj1 (wheel_len_zero 90 0 0 0)).
  cbn [m_last_right m_update_locals_init tracking_wheels_get_side_radius
       reading].
  pose proof PI_RGT_0.
  repeat split; field; lra.
Defined.

(** A reading 0.005 degrees away from the last one is filtered to zero, a
    reading 90 degrees away passes; after an iteration that reads 90 degrees
    the rotation total is 90 and the last reading is 90. *)
Lemma deadband_filter_contract_witness :
  let sens := reading 90 0 0 0 0 in
  let o := calibrate (new_c_Odometry sample_starts BLUE zero_defaults) in
  let l' := snd (m_update_iter deg_to_rad sens (o, m_update_locals_init)) in
  m_filter_values 0.005 0 = 0 /\
  m_filter_values 90 0 = 90 - 0 /\
  m_filtered_rotation l' = 0 + m_filter_values 90 0 /\
  m_last_rotation l' = 90.
Proof.
  intros sens o l'.
  destruct (deadband_filter_contract deg_to_rad sens o m_update_locals_init)
    as (Hfilter & (Hacc & Hlast) & _).
  fold l' in Hacc, Hlast.
  split; [ | split; [ | split ] ].
  - apply (Hfilter 0.005 0). rabs_lra.
  - apply (Hfilter 90 0). rabs_lra.
  - exact Hacc.
  - exact Hlast.
Defined.

(** The right wheel makes one turn while the heading stays: the chord is
    the wheel's circumference. *)
Lemma straight_line_reduction_witness :
  let sens := reading 0 0 0 360 0 in
  let o := calibrate (new_c_Odometry sample_starts BLUE zero_defaults) in
  let l' := snd (m_update_iter deg_to_rad sens (o, m_update_locals_init)) in
  deg_to_rad (m_filtered_rotation l') - m_global_angle o = 0 /\
  m_chord_right l' = 2.75 * PI /\
  m_chord_middle l' = 0.
Proof.
  intros sens o l'.
  assert (Hzero : deg_to_rad (m_filtered_rotation l') - m_global_angle o = 0).
  { subst l'. rewrite iter_filtered_rotation.
    cbn [m_filtered_rotation m_last_rotation m_update_locals_init
         imu_get_rotation sens reading].
    rewrite m_filter_values_same. subst o. cbn. unfold deg_to_rad. lra. }
  split; [ exact Hzero | ].
  destruct (straight_line_reduction deg_to_rad sens o m_update_locals_init Hzero)
    as (_ & _ & Hdr & Hdm & Hr & Hm).
  fold l' in Hdr, Hdm, Hr, Hm. rewrite Hr, Hm, Hdr, Hdm.
  unfold wheel_len. cbn. split; field.
Defined.

(** From heading 0, one inch on the right wheel moves the Pose one inch
    along [y]; one inch on the middle wheel moves it one inch along [x]. *)
Lemma coordinate_convention_witness :
  let o := calibrate (new_c_Odometry sample_starts BLUE zero_defaults) in
  let right_only := reading 0 0 0 one_inch 0 in
  let middle_only := reading 0 0 0 0 one_inch in
  let o_r := fst (m_update_iter deg_to_rad right_only (o, m_update_locals_init)) in
  let o_m := fst (m_update_iter deg_to_rad middle_only (o, m_update_locals_init)) in
  get_angle o = 0 /\
  (get_y o_r = get_y o + 1 /\ get_x o_r = get_x o) /\
  (get_x o_m = get_x o + 1 /\ get_y o_m = get_y o).
Proof.
  intros o right_only middle_only o_r o_m.
  assert (Ha : get_angle o = 0).
  { subst o. cbn. lra. }
  assert (Hzero : forall right middle,
    deg_to_rad (m_filtered_rotation
      (snd (m_update_iter deg_to_rad (reading 0 0 0 right middle)
         (o, m_update_locals_init)))) - get_angle o = 0).
  { intros right middle. rewrite iter_filtered_rotation.
    cbn [m_filtered_rotation m_last_rotation m_update_locals_init
         imu_get_rotation reading].
    rewrite m_filter_values_same, Ha. unfold deg_to_rad. lra. }
  assert (Hdelta : forall right middle,
    let l' := snd (m_update_iter deg_to_rad (reading 0 0 0 right middle)
                     (o, m_update_locals_init)) in
    m_delta_right l' = wheel_len (reading 0 0 0 right middle) RIGHT - 0 /\
    m_delta_middle l' = wheel_len (reading 0 0 0 right middle) MIDDLE - 0).
  { intros right middle.
    apply (iter_deltas deg_to_rad (reading 0 0 0 right middle) o
             m_update_locals_init). }
  split; [ exact Ha | ]. split.
  - destruct (coordinate_convention deg_to_rad right_only o m_update_locals_init
                Ha (Hzero one_inch 0)) as (Hright & _).
    destruct (Hdelta one_inch 0) as (Hdr & Hdm).
    apply Hright.
    + unfold right_only. rewrite Hdr, (proj1 (wheel_len_one_inch 0 0 0 0)). lra.
    + unfold right_only. rewrite Hdm, (proj2 (wheel_len_zero 0 0 0 one_inch)). lra.
  - destruct (coordinate_convention deg_to_rad middle_only o m_update_locals_init
                Ha (Hzero 0 one_inch)) as (_ & Hmiddle).
    destruct (Hdelta 0 one_inch) as (Hdr & Hdm).
    apply Hmiddle.
    + unfold middle_only. rewrite Hdr, (proj1 (wheel_len_zero 0 0 0 one_inch)). lra.
    + unfold middle_only. rewrite Hdm, (proj2 (wheel_len_one_inch 0 0 0 0)). lra.
Defined.

(** C6 as stated fails.  On the red side (starting heading 90) the loop is
    started, runs one iteration with every sensor at zero, and [calibrate]
    is called; the next iteration reads the same zeros, so every sensor
    delta is zero, and yet it turns the heading from 90 to 0. *)
Lemma zero_input_changes_pose :
  let w :=
    run deg_to_rad [Calibrate; Start_odom; Tick 0 still; Calibrate]
      (boot sample_starts RED zero_defaults) in
  exists l : m_update_locals,
    nth_error (tasks w) 0 = Some (Some l) /\
    zero_input still l /\
    get_angle (odom w) = 90 /\
    get_angle (odom (step deg_to_rad (Tick 0 still) w)) = 0 /\
    pose (odom (step deg_to_rad (Tick 0 still) w)) <> pose (odom w).
Proof.
  intro w.
  set (w1 := step deg_to_rad Start_odom
              (step deg_to_rad Calibrate (boot sample_starts RED zero_defaults))).
  set (st2 := m_update_iter deg_to_rad still (odom w1, m_update_locals_init)).
  assert (Hw : w = {| odom := calibrate (fst st2); tasks := [Some (snd st2)] |}).
  { subst w. cbn [run fold_left]. fold w1.
    rewrite (step_tick deg_to_rad 0 still w1 m_update_locals_init) by reflexivity.
    reflexivity. }
  exists (snd st2).
  assert (Hl : nth_error (tasks w) 0 = Some (Some (snd st2))).
  { rewrite Hw. reflexivity. }
  assert (Hbefore : get_angle (odom w) = 90).
  { pose proof (calibrate_after_run deg_to_rad sample_starts RED zero_defaults
                  [Calibrate; Start_odom; Tick 0 still]) as Hc.
    apply (f_equal snd) in Hc. exact Hc. }
  assert (Hafter : get_angle (odom (step deg_to_rad (Tick 0 still) w)) = 0).
  { rewrite (step_tick deg_to_rad 0 still w (snd st2) Hl). cbn [odom].
    unfold get_angle. rewrite iter_heading, iter_filtered_rotation.
    destruct (iter_last deg_to_rad still (odom w1) m_update_locals_init)
      as (Hlast & _).
    fold st2 in Hlast. rewrite Hlast, m_filter_values_same, Rplus_0_r.
    subst st2. rewrite iter_filtered_rotation.
    cbn [m_filtered_rotation m_last_rotation m_update_locals_init
         imu_get_rotation still reading].
    rewrite m_filter_values_same, Rplus_0_r. apply deg_to_rad_0. }
  split; [ exact Hl | ].
  split; [ apply zero_input_repeat | ].
  split; [ exact Hbefore | ].
  split; [ exact Hafter | ].
  intro Hpose.
  assert (Hangle : get_angle (odom (step deg_to_rad (Tick 0 still) w))
                   = get_angle (odom w)) by exact (f_equal snd Hpose).
  rewrite Hbefore, Hafter in Hangle. lra.
Qed.

Lemma filter_nudge : m_filter_values 0.02 0 = 0.02.
Proof. rewrite m_filter_values_pass; [ lra | rabs_lra ]. Qed.

Lemma filter_nudge_back : m_filter_values 0.00005 0.02 = 0.00005 - 0.02.
Proof. apply m_filter_values_pass. rabs_lra. Qed.

(** C7 as stated fails.  On the blue side (starting heading 0) the gyro
    reads 0.02 degrees, then 0.00005 degrees, and [calibrate] is called; in
    the next iteration the heading delta is the conversion of 0.00005
    degrees: not zero, and well inside the band of the filter's 0.01
    degrees.  The arc branch runs all the same: [alpha] is half the delta
    and not zero, so the straight-line results are not what is stored. *)
Lemma tiny_rotation_takes_arc_branch :
  let nudge := reading 0.02 0 0 0 0 in
  let back := reading 0.00005 0 0 0 0 in
  let w :=
    run deg_to_rad [Calibrate; Start_odom; Tick 0 nudge; Tick 0 back; Calibrate]
      (boot sample_starts BLUE zero_defaults) in
  exists l : m_update_locals,
    nth_error (tasks w) 0 = Some (Some l) /\
    let l' := snd (m_update_iter deg_to_rad back (odom w, l)) in
    let dTheta := deg_to_rad (m_filtered_rotation l') - m_global_angle (odom w) in
    dTheta = deg_to_rad 0.00005 /\
    dTheta <> 0 /\
    Rabs dTheta < deg_to_rad 0.01 /\
    deg_to_rad 0.01 < 0.01 /\
    m_alpha l' = dTheta / 2 /\
    m_radius_right l' = m_delta_right l' / dTheta + 5 /\
    m_radius_middle l' = m_delta_middle l' / dTheta + 3 /\
    ~ straight_line l'.
Proof.
  intros nudge back w.
  set (w1 := step deg_to_rad Start_odom
              (step deg_to_rad Calibrate (boot sample_starts BLUE zero_defaults))).
  set (st2 := m_update_iter deg_to_rad nudge (odom w1, m_update_locals_init)).
  set (st3 := m_update_iter deg_to_rad back (fst st2, snd st2)).
  assert (Hw : w = {| odom := calibrate (fst st3); tasks := [Some (snd st3)] |}).
  { subst w. cbn [run fold_left]. fold w1.
    rewrite (step_tick deg_to_rad 0 nudge w1 m_update_locals_init) by reflexivity.
    fold st2.
    rewrite (step_tick deg_to_rad 0 back _ (snd st2)) by reflexivity.
    reflexivity. }
  assert (Hangle : m_global_angle (odom w) = 0).
  { pose proof (calibrate_after_run deg_to_rad sample_starts BLUE zero_defaults
                  [Calibrate; Start_odom; Tick 0 nudge; Tick 0 back]) as Hc.
    apply (f_equal snd) in Hc. exact Hc. }
  exists (snd st3).
  split; [ rewrite Hw; reflexivity | ].
  intros l' dTheta.
  assert (Hf2 : m_filtered_rotation (snd st2) = 0.02 /\ m_last_rotation (snd st2) = 0.02).
  { subst st2. rewrite iter_filtered_rotation.
    destruct (iter_last deg_to_rad nudge (odom w1) m_update_locals_init) as (-> & _).
    cbn [m_filtered_rotation m_last_rotation m_update_locals_init
         imu_get_rotation nudge reading].
    rewrite filter_nudge. split; lra. }
  destruct Hf2 as (Hf2 & Hl2).
  assert (Hf3 : m_filtered_rotation (snd st3) = 0.00005 /\ m_last_rotation (snd st3) = 0.00005).
  { subst st3. rewrite iter_filtered_rotation.
    destruct (iter_last deg_to_rad back (fst st2) (snd st2)) as (-> & _).
    rewrite Hf2, Hl2.
    cbn [imu_get_rotation back reading].
    rewrite filter_nudge_back. split; lra. }
  destruct Hf3 as (Hf3 & Hl3).
  assert (Hf : m_filtered_rotation l' = 0.00005).
  { subst l'. rewrite iter_filtered_rotation, Hf3, Hl3. cbn [imu_get_rotation back reading].
    rewrite m_filter_values_same. lra. }
  assert (Hd : dTheta = deg_to_rad 0.00005).
  { subst dTheta. rewrite Hf, Hangle. lra. }
  assert (Hnz : dTheta <> 0).
  { rewrite Hd. unfold deg_to_rad. pose proof PI_RGT_0. lra. }
  destruct (iter_arc_turning deg_to_rad back (odom w) (snd st3) Hnz)
    as (Hal & Hrr & Hrm).
  fold l' dTheta in Hal, Hrr, Hrm.
  split; [ exact Hd | ]. split; [ exact Hnz | ].
  split; [ | split; [ | split; [ exact Hal | split; [ exact Hrr | split; [ exact Hrm | ] ] ] ] ].
  - rewrite Hd. unfold deg_to_rad. pose proof PI_RGT_0. rabs_lra.
  - unfold deg_to_rad. pose proof PI_4. lra.
  - intros (Hstraight & _). rewrite Hal in Hstraight. lra.
Qed.

(** ** Further statements at concrete inputs *)

(** The gyro creeps by 0.009 degrees three times: it reads 0.027, the total
    is still 0. *)
Lemma creeping_rotation_is_lost_witness :
  let o := calibrate (new_c_Odometry sample_starts BLUE zero_defaults) in
  let samples :=
    [reading 0.009 0 0 0 0; reading 0.018 0 0 0 0; reading 0.027 0 0 0 0] in
  let l' := snd (m_update_iters deg_to_rad samples (o, m_update_locals_init)) in
  creeping (m_last_rotation m_update_locals_init) samples /\
  m_filtered_rotation l' = 0 /\
  m_last_rotation l' = 0.027.
Proof.
  intros o samples l'.
  assert (Hcreep : creeping (m_last_rotation m_update_locals_init) samples).
  { cbn [creeping samples imu_get_rotation reading m_last_rotation
         m_update_locals_init].
    repeat split; rabs_lra. }
  split; [ exact Hcreep | ].
  exact (creeping_rotation_is_lost deg_to_rad samples o m_update_locals_init Hcreep).
Defined.

(** Calibrate, start, one iteration, stop: nothing runs any more. *)
Lemma stop_odom_silences_loop_witness :
  let es := [Calibrate; Start_odom; Tick 0 still] in
  let w := step deg_to_rad Stop_odom
             (run deg_to_rad es (boot sample_starts RED zero_defaults)) in
  no_double_start false es /\
  step deg_to_rad (Tick 0 still) w = w.
Proof.
  intros es w.
  assert (Hes : no_double_start false es).
  { cbn [no_double_start es]. repeat split. }
  split; [ exact Hes | ].
  exact (proj2 (stop_odom_silences_loop deg_to_rad sample_starts RED
                  zero_defaults es Hes) 0%nat still).
Defined.

(** A wide ball of another colour keeps [score] going; a wide red one ends
    it. *)
Lemma score_runs_to_first_done_witness :
  existsb (score_done sample_ids) [blue_ball 300] = false /\
  score_done sample_ids (red_ball 250) = true /\
  score sample_ids ([blue_ball 300] ++ red_ball 250 :: [no_ball])
  = ([conveyor_set_vel [600%Z]; delay 10; delay 100; conveyor_set_vel []],
     Some [no_ball]).
Proof.
  split; [ reflexivity | ]. split; [ reflexivity | ].
  exact (proj1 (score_runs_to_first_done sample_ids [blue_ball 300]
                  (red_ball 250) [no_ball] eq_refl eq_refl)).
Defined.

(** A red ball 60 wide ends the first loop of [descore], one 250 wide the
    second. *)
Lemma descore_releases_motors_witness :
  snd (descore sample_ids [red_ball 60; red_ball 250]) = Some [] /\
  final_conveyor (fst (descore sample_ids [red_ball 60; red_ball 250])) = Some [] /\
  final_intake (fst (descore sample_ids [red_ball 60; red_ball 250])) = Some [].
Proof.
  split; [ reflexivity | ].
  exact (descore_releases_motors sample_ids [red_ball 60; red_ball 250] []
           eq_refl).
Defined.

(** A ball of another colour, 60 wide, is ejected backwards. *)
Lemma descore_reverses_only_for_other_colour_witness :
  In (conveyor_set_vel [(-600)%Z; 600%Z])
     (fst (descore sample_ids [blue_ball 60; no_ball])) /\
  exists ball, In ball [blue_ball 60; no_ball] /\ (50 < width ball)%Z /\
               signature ball <> RED_ID sample_ids /\
               signature ball <> NULL_ID sample_ids.
Proof.
  assert (Hin : In (conveyor_set_vel [(-600)%Z; 600%Z])
                   (fst (descore sample_ids [blue_ball 60; no_ball]))).
  { cbn. right. right. right. left. reflexivity. }
  split; [ exact Hin | ].
  exact (descore_reverses_only_for_other_colour sample_ids
           [blue_ball 60; no_ball] [600%Z] Hin).
Defined.

(** A ball 41 wide stops the intake. *)
Lemma intake_stops_above_40_witness :
  Forall (fun b => (width b <= 40)%Z) [red_ball 30] /\
  (40 < width (red_ball 41))%Z /\
  intake_until_in_loop sample_ids ([red_ball 30] ++ red_ball 41 :: [])
  = ([conveyor_set_vel [600%Z]; intake_set_vel [600%Z]; delay 10;
      conveyor_set_vel []; intake_set_vel []],
     Some []).
Proof.
  assert (Hpre : Forall (fun b => (width b <= 40)%Z) [red_ball 30]).
  { constructor; [ cbn; lia | constructor ]. }
  assert (Hball : (40 < width (red_ball 41))%Z) by (cbn; lia).
  split; [ exact Hpre | ]. split; [ exact Hball | ].
  exact (intake_stops_above_40 sample_ids [red_ball 30] (red_ball 41) []
           Hpre Hball).
Defined.

(** Two notifications and one ball: [intake_until_in] does not return. *)
Lemma intake_until_in_returns_iff_witness :
  Forall (fun n => n <> 0%Z) [1%Z; 1%Z] /\
  ~ exists rest,
      snd (intake_until_in sample_ids ([1%Z; 1%Z] ++ [0%Z])
             [red_ball 30; red_ball 41]) = Some rest.
Proof.
  assert (Hnz : Forall (fun n => n <> 0%Z) [1%Z; 1%Z]).
  { repeat constructor; discriminate. }
  split; [ exact Hnz | ].
  intro Hret.
  apply (proj1 (intake_until_in_returns_iff sample_ids [1%Z; 1%Z] []
                  [red_ball 30; red_ball 41] Hnz)) in Hret.
  cbn in Hret. lia.
Defined.

(** ** The still robot, the reader, the creeping gyro and the restart *)

(** C6 on the very first iteration.  On the red side the object is
    constructed, [calibrate] and [start_odom] are called, and the loop runs
    its first iteration with every sensor at zero, which is what the
    [m_last_*] locals hold: the heading delta is -90 and the heading turns
    from 90 to 0. *)
Lemma first_tick_after_calibrate_turns_heading :
  let w :=
    run deg_to_rad [Calibrate; Start_odom]
      (boot sample_starts RED zero_defaults) in
  let st' := m_update_iter deg_to_rad still (odom w, m_update_locals_init) in
  nth_error (tasks w) 0 = Some (Some m_update_locals_init) /\
  zero_input still m_update_locals_init /\
  get_angle (odom w) = 90 /\
  m_delta_theta (snd st') = -90 /\
  get_angle (odom (step deg_to_rad (Tick 0 still) w)) = 0.
Proof.
  intros w st'.
  assert (Hl : nth_error (tasks w) 0 = Some (Some m_update_locals_init))
    by reflexivity.
  assert (Hin : zero_input still m_update_locals_init).
  { unfold zero_input. unfold still at 4 5.
    rewrite (proj1 (wheel_len_zero 0 0 0 0)), (proj2 (wheel_len_zero 0 0 0 0)).
    cbn. repeat split; reflexivity. }
  assert (Hbefore : get_angle (odom w) = 90).
  { subst w. cbn. lra. }
  assert (Hf : m_filtered_rotation (snd st') = 0).
  { subst st'. rewrite iter_filtered_rotation.
    cbn [m_filtered_rotation m_last_rotation m_update_locals_init
         imu_get_rotation still reading].
    rewrite m_filter_values_same. lra. }
  assert (Hd : m_delta_theta (snd st') = -90).
  { unfold st'. rewrite iter_delta_theta. fold st'. rewrite Hf, deg_to_rad_0.
    unfold get_angle in Hbefore. rewrite Hbefore. lra. }
  split; [ exact Hl | ]. split; [ exact Hin | ]. split; [ exact Hbefore | ].
  split; [ exact Hd | ].
  rewrite (step_tick deg_to_rad 0 still w m_update_locals_init Hl). cbn [odom].
  unfold get_angle. rewrite iter_heading. fold st'.
  rewrite Hf. apply deg_to_rad_0.
Qed.



(** The gyro creeps by 0.009 degrees three times at heading 0: the heading
    stays 0. *)
Lemma creeping_run_keeps_heading_witness :
  let o := calibrate (new_c_Odometry sample_starts BLUE zero_defaults) in
  let samples :=
    [reading 0.009 0 0 0 0; reading 0.018 0 0 0 0; reading 0.027 0 0 0 0] in
  get_angle o = deg_to_rad (m_filtered_rotation m_update_locals_init) /\
  creeping (m_last_rotation m_update_locals_init) samples /\
  get_angle (fst (m_update_iters deg_to_rad samples (o, m_update_locals_init)))
  = get_angle o.
Proof.
  intros o samples.
  assert (Hsync : get_angle o
                  = deg_to_rad (m_filtered_rotation m_update_locals_init)).
  { subst o. cbn. unfold deg_to_rad. lra. }
  assert (Hcreep : creeping (m_last_rotation m_update_locals_init) samples).
  { cbn [creeping samples imu_get_rotation reading m_last_rotation
         m_update_locals_init].
    repeat split; rabs_lra. }
  split; [ exact Hsync | ]. split; [ exact Hcreep | ].
  exact (proj1 (creeping_run_keeps_heading deg_to_rad samples o
                  m_update_locals_init Hsync Hcreep)).
Defined.

(** After a quarter turn with one turn of the right wheel, a restart with
    the same readings keeps the heading. *)
Lemma restart_counts_travel_again_witness :
  let w := run deg_to_rad [Calibrate] (boot sample_starts BLUE zero_defaults) in
  let sens := reading 90 0 0 360 0 in
  let w2 := run deg_to_rad [Start_odom; Tick 0 sens] w in
  let w5 := run deg_to_rad [Stop_odom; Start_odom; Tick 1 sens] w2 in
  get_angle (odom w) = 0 /\
  get_angle (odom w5) = get_angle (odom w2).
Proof.
  intros w sens w2 w5.
  assert (Hzero : get_angle (odom w) = 0) by (subst w; cbn; lra).
  split; [ exact Hzero | ].
  exact (proj1 (restart_counts_travel_again deg_to_rad w sens Hzero)).
Defined.
